(** * Azure-flask-hello: the request counter and the live status stream

    A shallow embedding of [app.py]: the module-level counter state
    ([STARTED_AT], [_LOCK], [_TOTAL_REQUESTS], [_LAST_HIT_UTC]), the
    [before_request] hook [_count_requests], the handlers [api_status],
    [healthz] and [events] with its generator [gen], and the threads of a
    WSGI server that run them concurrently.

    Conventions.
    - A timezone-aware UTC [datetime] is the number of microseconds since
      1970-01-01T00:00:00+00:00, an integer of [Z]; Python's [datetime]
      has microsecond resolution and ranges over the years 1..9999.
    - A Python [int] is unbounded, hence [Z]. The one float of the
      program, the value of [timedelta.total_seconds()], is modelled by
      its rounding to 53 bits, written out on integers.
    - A Python [str] is a [string]; every string that the modelled code
      builds itself is ASCII.
    - The wall clock ([datetime.now]) and the outcome of a write to the
      client are inputs of the environment: each step of a thread receives
      them in an [Env] record. *)

From Stdlib Require Import ZArith List String Ascii Bool Lia.
From Stdlib Require Import DecimalString DecimalZ.
From stdpp Require Import base list.

Open Scope Z_scope.

(* ===================================================================== *)
(** ** Timestamps and [datetime.isoformat] *)
(* ===================================================================== *)

Module Datetime.

#[local] Open Scope string_scope.
#[local] Open Scope Z_scope.

Definition datetime := Z.

Definition US_PER_SECOND : Z := 1000000.
Definition US_PER_DAY : Z := 86400 * US_PER_SECOND.

(** [datetime.min] and [datetime.max] with [tzinfo=timezone.utc]:
    0001-01-01T00:00:00 and 9999-12-31T23:59:59.999999. *)
Definition MIN_US : Z := -62135596800000000.
Definition MAX_US : Z := 253402300799999999.

Definition in_range (t : datetime) : bool := (MIN_US <=? t) && (t <=? MAX_US).

(** Proleptic Gregorian calendar. The computation works in eras of 400
    years (146097 days) that start on 1 March of a year divisible by 400,
    so that a leap day is the last day of a year of the era.
    [civil_of_era_day] maps a day of the era to the year within the era
    (counted from January), the month and the day of the month. *)
Definition civil_of_era_day (day_of_era : Z) : Z * Z * Z :=
  let year_of_era :=
    (day_of_era - day_of_era / 1460 + day_of_era / 36524
     - day_of_era / 146096) / 365 in
  let day_of_year :=
    day_of_era - (365 * year_of_era + year_of_era / 4 - year_of_era / 100) in
  let march_month := (5 * day_of_year + 2) / 153 in
  let day := day_of_year - (153 * march_month + 2) / 5 + 1 in
  let month := if march_month <? 10 then march_month + 3 else march_month - 9 in
  (year_of_era + (if month <=? 2 then 1 else 0), month, day).

(** Date of a day number counted from 1970-01-01, which is day 719468 of
    the calendar of eras. *)
Definition civil_of_days (n : Z) : Z * Z * Z :=
  let shifted := n + 719468 in
  let '(y, m, d) := civil_of_era_day (shifted mod 146097) in
  (y + 400 * (shifted / 146097), m, d).

Definition year (t : datetime) : Z := fst (fst (civil_of_days (t / US_PER_DAY))).
Definition month (t : datetime) : Z := snd (fst (civil_of_days (t / US_PER_DAY))).
Definition day (t : datetime) : Z := snd (civil_of_days (t / US_PER_DAY)).
Definition hour (t : datetime) : Z := (t mod US_PER_DAY) / (3600 * US_PER_SECOND).
Definition minute (t : datetime) : Z := (t mod (3600 * US_PER_SECOND)) / (60 * US_PER_SECOND).
Definition second (t : datetime) : Z := (t mod (60 * US_PER_SECOND)) / US_PER_SECOND.
Definition microsecond (t : datetime) : Z := t mod US_PER_SECOND.

(** The character of a decimal digit. *)
Definition digit (n : Z) : ascii := ascii_of_nat (48 + Z.to_nat n).

(** ["%0wd" % n] for [0 <= n < 10^w]: exactly [w] decimal digits. The
    fields of a [datetime] are within these bounds. *)
Fixpoint zero_padded (w : nat) (n : Z) : string :=
  match w with
  | O => ""
  | S w' => zero_padded w' (n / 10) ++ String (digit (n mod 10)) ""
  end.

(** [datetime.isoformat()] of an aware UTC value, with the default
    separator ['T'] and [timespec='auto']: the fraction is printed only
    when the microsecond field is not zero, and the offset of
    [timezone.utc] is printed as [+00:00]. *)
Definition isoformat (t : datetime) : string :=
  zero_padded 4 (year t) ++ "-" ++ zero_padded 2 (month t) ++ "-"
  ++ zero_padded 2 (day t) ++ "T"
  ++ zero_padded 2 (hour t) ++ ":" ++ zero_padded 2 (minute t) ++ ":"
  ++ zero_padded 2 (second t)
  ++ (if microsecond t =? 0 then "" else "." ++ zero_padded 6 (microsecond t))
  ++ "+00:00".

(** The integer nearest to [n / d], ties to the even one ([0 <= n],
    [0 < d]). *)
Definition round_half_even (n d : Z) : Z :=
  let q := n / d in
  let r := n mod d in
  if 2 * r <? d then q
  else if d <? 2 * r then q + 1
  else if Z.even q then q else q + 1.

(** The integer [e] with [2^e <= a / b < 2^(e + 1)], for [0 < a] and
    [0 < b]. *)
Definition quotient_exponent (a b : Z) : Z :=
  if b <=? a then Z.log2 (a / b) else - Z.log2_up ((b + a - 1) / a).

(** [int(a / b)] for Python integers [0 <= a] and [0 < b]: the true
    division gives the binary64 float nearest to the quotient (a
    significand of 53 bits, ties to even) and [int] truncates it. The
    range of the exponent is not modelled: the quotients of this program
    are far from overflow and underflow. *)
Definition int_true_div (a b : Z) : Z :=
  if a =? 0 then 0
  else
    let s := 52 - quotient_exponent a b in
    if 0 <=? s
    then round_half_even (a * 2 ^ s) b / 2 ^ s
    else round_half_even a (b * 2 ^ (- s)) * 2 ^ (- s).

(** [int(delta.total_seconds())] for a [timedelta] of [delta_us]
    microseconds: [total_seconds()] is the true division of the
    microseconds by [10**6], and the division of a negative integer is
    the opposite of the division of its opposite. *)
Definition int_total_seconds (delta_us : Z) : Z :=
  if 0 <=? delta_us then int_true_div delta_us US_PER_SECOND
  else - int_true_div (- delta_us) US_PER_SECOND.

(** The durations, in microseconds, below which the float of
    [total_seconds()] is closer to the exact quotient than half a
    microsecond: [2^34] seconds, about 544 years. *)
Definition EXACT_US : Z := 2 ^ 34 * US_PER_SECOND.

End Datetime.

Import Datetime.

(* ===================================================================== *)
(** ** Python values and [json.dumps] *)
(* ===================================================================== *)

Module Json.

#[local] Open Scope string_scope.
#[local] Open Scope Z_scope.

(** The Python values that occur in the dictionaries of [app.py]. *)
Inductive value : Type :=
  | Null
  | Bool (b : bool)
  | Int (n : Z)
  | Str (s : string).

(** A [dict] with string keys, in insertion order. *)
Definition dict : Type := list (string * value).

Fixpoint get (k : string) (d : dict) : option value :=
  match d with
  | [] => None
  | (k', v) :: d' => if String.eqb k k' then Some v else get k d'
  end.

Definition keys (d : dict) : list string := map fst d.

Definition quote : ascii := "034".
Definition backslash : ascii := "\".
Definition newline : ascii := "010".

Definition hex_digit (n : nat) : ascii :=
  if (n <? 10)%nat then ascii_of_nat (48 + n) else ascii_of_nat (87 + n).

(** [json.encoder.py_encode_basestring_ascii] on one character: the
    table [ESCAPE_DCT], and a four-digit escape for everything outside
    the printable ASCII range. *)
Definition escape_char (c : ascii) : string :=
  let n := nat_of_ascii c in
  if (n =? 34)%nat then String backslash (String quote "")
  else if (n =? 92)%nat then String backslash (String backslash "")
  else if (n =? 10)%nat then "\n"
  else if (n =? 13)%nat then "\r"
  else if (n =? 9)%nat then "\t"
  else if (n =? 8)%nat then "\b"
  else if (n =? 12)%nat then "\f"
  else if ((32 <=? n) && (n <=? 126))%nat then String c ""
  else "\u00" ++ String (hex_digit (n / 16)) (String (hex_digit (n mod 16)) "").

Fixpoint escape (s : string) : string :=
  match s with
  | EmptyString => ""
  | String c s' => escape_char c ++ escape s'
  end.

Definition dumps_str (s : string) : string :=
  String quote (escape s ++ String quote "").

(** [int.__repr__]: decimal digits, with a minus sign when negative. *)
Definition dumps_int (n : Z) : string := NilZero.string_of_int (Z.to_int n).

Definition dumps_value (v : value) : string :=
  match v with
  | Null => "null"
  | Bool true => "true"
  | Bool false => "false"
  | Int n => dumps_int n
  | Str s => dumps_str s
  end.

Definition dumps_item (kv : string * value) : string :=
  dumps_str (fst kv) ++ ": " ++ dumps_value (snd kv).

Fixpoint join (sep : string) (l : list string) : string :=
  match l with
  | [] => ""
  | [x] => x
  | x :: l' => x ++ sep ++ join sep l'
  end.

(** [json.dumps(d)] with the default separators and [ensure_ascii]. *)
Definition dumps (d : dict) : string :=
  "{" ++ join ", " (map dumps_item d) ++ "}".

End Json.

(* ===================================================================== *)
(** ** Module state of [app.py] *)
(* ===================================================================== *)

(** The module-level names: [STARTED_AT] is assigned once at import,
    [_LOCK] is a [threading.Lock] ([true] when held), and the two counters
    start as [0] and [None]. *)
Record Globals : Type := mkGlobals {
  STARTED_AT : datetime;
  _LOCK : bool;
  _TOTAL_REQUESTS : Z;
  _LAST_HIT_UTC : option datetime
}.

Definition initial (started : datetime) : Globals :=
  {| STARTED_AT := started; _LOCK := false;
     _TOTAL_REQUESTS := 0; _LAST_HIT_UTC := None |}.

Definition set_lock (b : bool) (g : Globals) : Globals :=
  {| STARTED_AT := STARTED_AT g; _LOCK := b;
     _TOTAL_REQUESTS := _TOTAL_REQUESTS g; _LAST_HIT_UTC := _LAST_HIT_UTC g |}.

Definition set_total (n : Z) (g : Globals) : Globals :=
  {| STARTED_AT := STARTED_AT g; _LOCK := _LOCK g;
     _TOTAL_REQUESTS := n; _LAST_HIT_UTC := _LAST_HIT_UTC g |}.

Definition set_last (l : option datetime) (g : Globals) : Globals :=
  {| STARTED_AT := STARTED_AT g; _LOCK := _LOCK g;
     _TOTAL_REQUESTS := _TOTAL_REQUESTS g; _LAST_HIT_UTC := l |}.

(** [_uptime_seconds()], with the reading of the clock as argument. *)
Definition _uptime_seconds (now : datetime) (g : Globals) : Z :=
  int_total_seconds (now - STARTED_AT g).

(** The body of [_count_requests] under the lock, run without
    interruption: the two assignments. *)
Definition _count_requests (now : datetime) (g : Globals) : Globals :=
  set_last (Some now) (set_total (_TOTAL_REQUESTS g + 1) g).

(** [_LAST_HIT_UTC.isoformat() if _LAST_HIT_UTC else None]; a [datetime]
    object is always true. *)
Definition last_hit_text (l : option datetime) : option string :=
  match l with
  | Some t => Some (isoformat t)
  | None => None
  end.

(** The pair that [api_status] and [gen] read under the lock. *)
Definition snapshot (g : Globals) : Z * option string :=
  (_TOTAL_REQUESTS g, last_hit_text (_LAST_HIT_UTC g)).

Definition opt_str (o : option string) : Json.value :=
  match o with
  | Some s => Json.Str s
  | None => Json.Null
  end.

(* ===================================================================== *)
(** ** Requests, responses and the view functions *)
(* ===================================================================== *)

(** The URL rules of the application; [Other] stands for a path that
    matches no rule, which the framework answers with 404. The
    [before_request] hook runs for all of them. *)
Inductive Route : Type := Home | ApiStatus | Healthz | Events | Other.

Record Request : Type := mkRequest {
  route : Route;
  x_forwarded_for : option string;   (* request.headers.get("X-Forwarded-For") *)
  remote_addr : option string        (* request.remote_addr *)
}.

(** What the process reads from the interpreter and from its
    environment variables. *)
Record Process : Type := mkProcess {
  python_version : string;            (* os.sys.version.split()[0] *)
  WEBSITE_SITE_NAME : option string   (* os.getenv("WEBSITE_SITE_NAME") *)
}.

(** The dictionary that [api_status] hands to [jsonify], built after the
    locked read of [total] and [last]; [now] is the reading of the clock
    inside [_uptime_seconds()]. *)
Definition api_status_body (p : Process) (r : Request) (g : Globals)
    (total : Z) (last : option string) (now : datetime) : Json.dict :=
  [ ("app", Json.Str "zeinab-flabbergasted-launch");
    ("status", Json.Str "ok");
    ("started_utc", Json.Str (isoformat (STARTED_AT g)));
    ("uptime_seconds", Json.Int (_uptime_seconds now g));
    ("total_requests", Json.Int total);
    ("last_hit_utc", opt_str last);
    ("python", Json.Str (python_version p));
    ("azure_site_name",
      Json.Str (match WEBSITE_SITE_NAME p with Some s => s | None => "local" end));
    ("remote_addr",
      opt_str (match x_forwarded_for r with Some s => Some s | None => remote_addr r end))
  ]%string.

(** [api_status()] run without interruption. *)
Definition api_status (p : Process) (r : Request) (now : datetime) (g : Globals)
    : Json.dict :=
  api_status_body p r g (fst (snapshot g)) (snd (snapshot g)) now.

(** The [payload] dictionary of one iteration of [gen]: [now_uptime] is
    the reading of the clock inside [_uptime_seconds()], [now_ts] the
    later one of [_now_utc().isoformat()]. *)
Definition payload (g : Globals) (total : Z) (last : option string)
    (now_uptime now_ts : datetime) : Json.dict :=
  [ ("uptime", Json.Int (_uptime_seconds now_uptime g));
    ("total_requests", Json.Int total);
    ("last_hit_utc", opt_str last);
    ("ts", Json.Str (isoformat now_ts))
  ]%string.

(** The item that [gen] yields: [f"data: {json.dumps(payload)}\n\n"]. *)
Definition sse_message (d : Json.dict) : string :=
  ("data: " ++ Json.dumps d
   ++ String Json.newline (String Json.newline ""))%string.

(* ===================================================================== *)
(** ** The generator [events.gen] as a Python generator object *)
(* ===================================================================== *)

Module Generator.

(** State of the generator's frame. *)
Inductive Frame : Type :=
  | Created      (* gen() was called, the body has not started *)
  | Suspended    (* stopped at the [yield] *)
  | Finished.

(** How a caller drives a generator object. *)
Inductive Resume : Type :=
  | Next                      (* next(g) *)
  | Send (v : Json.value)     (* g.send(v) *)
  | Close.                    (* g.close() *)

Inductive Exception : Type := StopIteration | GeneratorExit | TypeError.

(** What the call returns to the caller, and how the body left the
    frame when it did. *)
Inductive Result : Type :=
  | Yielded (item : string)        (* the body reached the [yield] *)
  | Raised (e : Exception)         (* the call raises [e] *)
  | Returned                       (* the body executed a return *)
  | Unwound (e : Exception)        (* [e] left the body uncaught; [close] returns *)
  | NoOp.                          (* [close] on a frame that is not running *)

(** One pass of the body of [gen] from the top of the [while True] to the
    [yield], run without interruption. *)
Definition iteration (g : Globals) (now_uptime now_ts : datetime) : string :=
  sse_message (payload g (fst (snapshot g)) (snd (snapshot g)) now_uptime now_ts).

(** The body is [while True: ...; yield ...; time.sleep(1)]: it has no
    [return], no [break], no [try], and the value of the [yield]
    expression is discarded. *)
Definition resume (r : Resume) (g : Globals) (now_uptime now_ts : datetime)
    (f : Frame) : Frame * Result :=
  match f, r with
  | Created, Next => (Suspended, Yielded (iteration g now_uptime now_ts))
  | Created, Send Json.Null => (Suspended, Yielded (iteration g now_uptime now_ts))
  | Created, Send _ => (Created, Raised TypeError)
  | Created, Close => (Finished, NoOp)
  | Suspended, Next => (Suspended, Yielded (iteration g now_uptime now_ts))
  | Suspended, Send _ => (Suspended, Yielded (iteration g now_uptime now_ts))
  | Suspended, Close => (Finished, Unwound GeneratorExit)
  | Finished, Next => (Finished, Raised StopIteration)
  | Finished, Send _ => (Finished, Raised StopIteration)
  | Finished, Close => (Finished, NoOp)
  end.

(** The loop reports an emit failure by itself when some value sent into
    the suspended generator makes the body return. *)
Definition exits_on_checked_result : Prop :=
  exists (v : Json.value) (g : Globals) (n1 n2 : datetime),
    resume (Send v) g n1 n2 Suspended = (Finished, Returned).

End Generator.

(* ===================================================================== *)
(** ** Threads of the server *)
(* ===================================================================== *)

(** What a thread has handed to its client so far, in order. *)
Inductive Output : Type :=
  | JsonResponse (body : Json.dict)       (* jsonify({...}) *)
  | TextResponse (code : Z) (body : string)
  | HomePage                              (* the inline HTML document *)
  | NotFound                              (* no rule matched *)
  | StreamOpened                          (* Response(gen(), mimetype="text/event-stream") *)
  | Sent (item : string)                  (* an item of [gen] written to the client *)
  | WriteFailed (item : string)           (* the write of this item failed *)
  | Slept (seconds : Z).                  (* time.sleep(seconds) returned *)

(** Where a thread stands in the code of its request. Every constructor
    is the point just before one access to shared state, to the clock or
    to the client. The arguments are the local variables that are live. *)
Inductive PC : Type :=
  (* _count_requests *)
  | CountAcquire                      (* with _LOCK: *)
  | CountLoad                         (* read _TOTAL_REQUESTS *)
  | CountStore (loaded : Z)           (* write _TOTAL_REQUESTS = loaded + 1 *)
  | CountStamp                        (* _LAST_HIT_UTC = _now_utc() *)
  | CountRelease                      (* leave the with block *)
  | Dispatch                          (* call the view function *)
  (* api_status *)
  | StatusAcquire
  | StatusReadTotal
  | StatusReadLast (total : Z)
  | StatusRelease (total : Z) (last : option string)
  | StatusRespond (total : Z) (last : option string)
  (* events.gen, driven by the server *)
  | GenAcquire
  | GenReadTotal
  | GenReadLast (total : Z)
  | GenRelease (total : Z) (last : option string)
  | GenUptime (total : Z) (last : option string)
  | GenTs (total : Z) (last : option string) (uptime_now : datetime)
  | GenYield (item : string)          (* suspended at the yield *)
  | GenSleep                          (* time.sleep(1) *)
  | Done.

Record Thread : Type := mkThread {
  request : Request;
  pc : PC;
  out : list Output
}.

(** Inputs of the environment for one step: the reading of the wall
    clock if the step takes one, and whether a write to the client
    succeeds if the step writes. *)
Record Env : Type := mkEnv {
  now : datetime;
  write_ok : bool
}.

Definition goto (t : Thread) (p : PC) : Thread :=
  {| request := request t; pc := p; out := out t |}.

Definition emit (o : Output) (t : Thread) : Thread :=
  {| request := request t; pc := pc t; out := (out t ++ [o])%list |}.

(** One step of a thread; [None] when the thread cannot move (it waits
    for the lock, or it is done). *)
Definition thread_step (p : Process) (e : Env) (g : Globals) (t : Thread)
    : option (Globals * Thread) :=
  match pc t with
  | CountAcquire =>
      if _LOCK g then None else Some (set_lock true g, goto t CountLoad)
  | CountLoad => Some (g, goto t (CountStore (_TOTAL_REQUESTS g)))
  | CountStore v => Some (set_total (v + 1) g, goto t CountStamp)
  | CountStamp => Some (set_last (Some (now e)) g, goto t CountRelease)
  | CountRelease => Some (set_lock false g, goto t Dispatch)
  | Dispatch =>
      match route (request t) with
      | Home => Some (g, emit HomePage (goto t Done))
      | ApiStatus => Some (g, goto t StatusAcquire)
      | Healthz => Some (g, emit (TextResponse 200 "ok") (goto t Done))
      | Events => Some (g, emit StreamOpened (goto t GenAcquire))
      | Other => Some (g, emit NotFound (goto t Done))
      end
  | StatusAcquire =>
      if _LOCK g then None else Some (set_lock true g, goto t StatusReadTotal)
  | StatusReadTotal => Some (g, goto t (StatusReadLast (_TOTAL_REQUESTS g)))
  | StatusReadLast total =>
      Some (g, goto t (StatusRelease total (last_hit_text (_LAST_HIT_UTC g))))
  | StatusRelease total last =>
      Some (set_lock false g, goto t (StatusRespond total last))
  | StatusRespond total last =>
      Some (g, emit (JsonResponse (api_status_body p (request t) g total last (now e)))
                 (goto t Done))
  | GenAcquire =>
      if _LOCK g then None else Some (set_lock true g, goto t GenReadTotal)
  | GenReadTotal => Some (g, goto t (GenReadLast (_TOTAL_REQUESTS g)))
  | GenReadLast total =>
      Some (g, goto t (GenRelease total (last_hit_text (_LAST_HIT_UTC g))))
  | GenRelease total last =>
      Some (set_lock false g, goto t (GenUptime total last))
  | GenUptime total last => Some (g, goto t (GenTs total last (now e)))
  | GenTs total last up =>
      Some (g, goto t (GenYield (sse_message (payload g total last up (now e)))))
  | GenYield item =>
      (* the server writes the item; when the write fails it closes the
         generator, which raises GeneratorExit at the yield *)
      if write_ok e
      then Some (g, emit (Sent item) (goto t GenSleep))
      else Some (g, emit (WriteFailed item) (goto t Done))
  | GenSleep => Some (g, emit (Slept 1) (goto t GenAcquire))
  | Done => None
  end.

(** The process: the module state and one thread per request. *)
Record Config : Type := mkConfig {
  process : Process;
  globals : Globals;
  pool : list Thread
}.

Definition start (r : Request) : Thread :=
  {| request := r; pc := CountAcquire; out := [] |}.

(** The process just after import, with the requests that it is going
    to serve. *)
Definition boot (p : Process) (started : datetime) (rs : list Request) : Config :=
  {| process := p; globals := initial started; pool := map start rs |}.

(** The scheduler lets thread [i] take one step; nothing happens when
    that thread cannot move. *)
Definition step (c : Config) (ie : nat * Env) : Config :=
  match pool c !! fst ie with
  | Some t =>
      match thread_step (process c) (snd ie) (globals c) t with
      | Some (g', t') =>
          {| process := process c; globals := g'; pool := <[fst ie := t']> (pool c) |}
      | None => c
      end
  | None => c
  end.

Definition Schedule : Type := list (nat * Env).

Definition run (s : Schedule) (c : Config) : Config := fold_left step s c.

(** A thread has left the hook [_count_requests]. *)
Definition hook_done (t : Thread) : bool :=
  match pc t with
  | CountAcquire | CountLoad | CountStore _ | CountStamp | CountRelease => false
  | _ => true
  end.

(** A thread has executed the assignment to [_TOTAL_REQUESTS]. *)
Definition counted (t : Thread) : bool :=
  match pc t with
  | CountAcquire | CountLoad | CountStore _ => false
  | _ => true
  end.

(** A thread has executed the assignment to [_LAST_HIT_UTC]. *)
Definition stamped (t : Thread) : bool :=
  match pc t with
  | CountAcquire | CountLoad | CountStore _ | CountStamp => false
  | _ => true
  end.

(** A thread is inside a [with _LOCK:] block. *)
Definition holds_lock (t : Thread) : bool :=
  match pc t with
  | CountLoad | CountStore _ | CountStamp | CountRelease
  | StatusReadTotal | StatusReadLast _ | StatusRelease _ _
  | GenReadTotal | GenReadLast _ | GenRelease _ _ => true
  | _ => false
  end.

(** A thread is in the sampling loop of [gen]. *)
Definition in_gen (t : Thread) : bool :=
  match pc t with
  | GenAcquire | GenReadTotal | GenReadLast _ | GenRelease _ _
  | GenUptime _ _ | GenTs _ _ _ | GenYield _ | GenSleep => true
  | _ => false
  end.

Fixpoint count_if (f : Thread -> bool) (l : list Thread) : Z :=
  match l with
  | [] => 0
  | t :: l' => (if f t then 1 else 0) + count_if f l'
  end.

(** The schedule that lets thread [i] alone take one step per element of
    [es]. *)
Definition solo (i : nat) (es : list Env) : Schedule := map (pair i) es.

(** The schedule that serves the first [n] requests one after the other:
    each thread runs its hook to the end before the next one starts. *)
Fixpoint in_turn (e : Env) (n : nat) : Schedule :=
  match n with
  | O => []
  | S n' => in_turn e n' ++ solo n' (repeat e 5)
  end.

(** The output of a stream that has written [items] and slept after each
    of them. *)
Definition stream_trace (items : list string) : list Output :=
  StreamOpened :: flat_map (fun m => [Sent m; Slept 1]) items.

(* ===================================================================== *)
(** ** Shapes of the texts *)
(* ===================================================================== *)

Module Shape.

#[local] Open Scope string_scope.

Definition is_digit (c : ascii) : bool :=
  ((48 <=? nat_of_ascii c) && (nat_of_ascii c <=? 57))%nat.

(** Printable ASCII, the characters [' '] to ['~']: one byte each in
    UTF-8, and none of them a line break. *)
Definition is_printable (c : ascii) : bool :=
  ((32 <=? nat_of_ascii c) && (nat_of_ascii c <=? 126))%nat.

Fixpoint printable (s : string) : bool :=
  match s with
  | EmptyString => true
  | String c s' => is_printable c && printable s'
  end.

(** Recognisers in continuation style: [digits n k] accepts [n] decimal
    digits and hands the rest to [k]; [lit c k] accepts the character
    [c]. *)
Fixpoint digits (n : nat) (k : string -> bool) (s : string) : bool :=
  match n with
  | O => k s
  | S n' =>
      match s with
      | String c s' => is_digit c && digits n' k s'
      | EmptyString => false
      end
  end.

Definition lit (c : ascii) (k : string -> bool) (s : string) : bool :=
  match s with
  | String c' s' => Ascii.eqb c c' && k s'
  | EmptyString => false
  end.

Definition utc_offset (s : string) : bool := String.eqb s "+00:00".

(** ISO 8601 extended format of a UTC date and time,
    [YYYY-MM-DDTHH:MM:SS+00:00] or [YYYY-MM-DDTHH:MM:SS.ffffff+00:00]:
    [iso8601_utc] below. *)
Definition fraction_and_offset (rest : string) : bool :=
  utc_offset rest || lit "." (digits 6 utc_offset) rest.

Definition time_of_day : string -> bool :=
  digits 2 (lit ":" (digits 2 (lit ":" (digits 2 fraction_and_offset)))).

Definition iso8601_utc : string -> bool :=
  digits 4 (lit "-" (digits 2 (lit "-" (digits 2 (lit "T" time_of_day))))).

Definition is_int (v : Json.value) : bool :=
  match v with Json.Int _ => true | _ => false end.

Definition is_timestamp (v : Json.value) : bool :=
  match v with Json.Str s => iso8601_utc s | _ => false end.

Definition is_timestamp_or_null (v : Json.value) : bool :=
  match v with Json.Null => true | Json.Str s => iso8601_utc s | _ => false end.

(** The dictionary of a message of [/events]: exactly the four fields,
    with their types. *)
Definition is_payload (d : Json.dict) : bool :=
  match d with
  | [(k1, v1); (k2, v2); (k3, v3); (k4, v4)] =>
      String.eqb k1 "uptime" && is_int v1
      && String.eqb k2 "total_requests" && is_int v2
      && String.eqb k3 "last_hit_utc" && is_timestamp_or_null v3
      && String.eqb k4 "ts" && is_timestamp v4
  | _ => false
  end.

(** The fields of a response of [/api/status] that the clients rely on. *)
Definition has_status_fields (d : Json.dict) : bool :=
  match Json.get "uptime_seconds" d, Json.get "total_requests" d,
        Json.get "last_hit_utc" d with
  | Some v1, Some v2, Some v3 => is_int v1 && is_int v2 && is_timestamp_or_null v3
  | _, _, _ => false
  end.

End Shape.

(** An item of the stream: the text [data: <JSON object>] closed by an
    empty line, the object being a payload written on one line of
    printable ASCII. *)
Definition is_message (item : string) : Prop :=
  exists d : Json.dict,
    item = ("data: " ++ Json.dumps d
            ++ String Json.newline (String Json.newline ""))%string
    /\ Shape.is_payload d = true
    /\ Shape.printable (Json.dumps d) = true.

(* ===================================================================== *)
(** ** Invariant of the reachable configurations *)
(* ===================================================================== *)

(** What a thread knows about the shared state, by its position. *)
Definition local_ok (g : Globals) (t : Thread) : Prop :=
  (stamped t = true -> _LAST_HIT_UTC g <> None) /\
  match pc t with
  | CountStore v => v = _TOTAL_REQUESTS g
  | StatusReadLast total | GenReadLast total => total = _TOTAL_REQUESTS g
  | StatusRelease total last | GenRelease total last =>
      total = _TOTAL_REQUESTS g /\ last = last_hit_text (_LAST_HIT_UTC g)
  | StatusRespond total last | GenUptime total last | GenTs total last _ =>
      1 <= total /\ exists l : datetime, last = Some (isoformat l)
  | _ => True
  end.

(** What a response of [/api/status] looks like once the hook has run
    for its own request. *)
Definition counted_status (d : Json.dict) : Prop :=
  (exists n : Z, Json.get "total_requests" d = Some (Json.Int n) /\ 1 <= n)
  /\ (exists l : datetime, Json.get "last_hit_utc" d = Some (Json.Str (isoformat l)))
  /\ Shape.has_status_fields d = true.

Definition output_ok (o : Output) : Prop :=
  match o with
  | JsonResponse d => counted_status d
  | Sent item | WriteFailed item => is_message item
  | _ => True
  end.

(** What a thread has written, by its position and its route. *)
Definition trace_ok (t : Thread) : Prop :=
  match pc t with
  | CountAcquire | CountLoad | CountStore _ | CountStamp | CountRelease
  | Dispatch => out t = []
  | StatusAcquire | StatusReadTotal | StatusReadLast _ | StatusRelease _ _
  | StatusRespond _ _ => route (request t) = ApiStatus /\ out t = []
  | GenAcquire | GenReadTotal | GenReadLast _ | GenRelease _ _ | GenUptime _ _
  | GenTs _ _ _ =>
      route (request t) = Events /\ exists items, out t = stream_trace items
  | GenYield item =>
      route (request t) = Events /\ is_message item
      /\ exists items, out t = stream_trace items
  | GenSleep =>
      route (request t) = Events
      /\ exists items item, out t = (stream_trace items ++ [Sent item])%list
  | Done =>
      match route (request t) with
      | Home => out t = [HomePage]
      | ApiStatus => exists d, out t = [JsonResponse d]
      | Healthz => out t = [TextResponse 200 "ok"]
      | Events =>
          exists items item, out t = (stream_trace items ++ [WriteFailed item])%list
      | Other => out t = [NotFound]
      end
  end.

Definition thread_ok (g : Globals) (t : Thread) : Prop :=
  local_ok g t /\ trace_ok t /\ Forall output_ok (out t).

Record Inv (started : datetime) (c : Config) : Prop := mkInv {
  inv_started : STARTED_AT (globals c) = started;
  inv_lock :
    count_if holds_lock (pool c) = if _LOCK (globals c) then 1 else 0;
  inv_total : _TOTAL_REQUESTS (globals c) = count_if counted (pool c);
  inv_last :
    _LAST_HIT_UTC (globals c) <> None -> 1 <= _TOTAL_REQUESTS (globals c);
  inv_threads : Forall (thread_ok (globals c)) (pool c)
}.

(* ===================================================================== *)
(** ** Notions used in the statements *)
(* ===================================================================== *)

(** Every thread of the process has left the hook [_count_requests]. *)
Definition all_hooks_done (c : Config) : bool := forallb hook_done (pool c).

(** The thread is about to execute the write of [_TOTAL_REQUESTS += 1]. *)
Definition at_store (t : Thread) : bool :=
  match pc t with CountStore _ => true | _ => false end.

(** The thread is about to execute [_LAST_HIT_UTC = _now_utc()]. *)
Definition at_stamp (t : Thread) : bool :=
  match pc t with CountStamp => true | _ => false end.

(** The pair [(total, last)] that a thread has read under the lock and
    still holds in its local variables. *)
Definition held_snapshot (t : Thread) : option (Z * option string) :=
  match pc t with
  | StatusRelease total last | StatusRespond total last
  | GenRelease total last | GenUptime total last | GenTs total last _ =>
      Some (total, last)
  | _ => None
  end.



(** The process with a single thread. *)
Definition alone (p : Process) (g : Globals) (t : Thread) : Config :=
  {| process := p; globals := g; pool := [t] |}.

(** A thread that has left the hook and has not yet entered its view
    function. *)
Definition served (r : Request) : Thread :=
  {| request := r; pc := Dispatch; out := [] |}.

(** The module state after [n] uninterrupted calls of the hook, the
    clock reading [now e] at each of them. *)
Definition after_hits (started : datetime) (e : Env) (n : nat) : Globals :=
  {| STARTED_AT := started; _LOCK := false; _TOTAL_REQUESTS := Z.of_nat n;
     _LAST_HIT_UTC := match n with O => None | S _ => Some (now e) end |}.


(** The bounds on the result of [civil_of_era_day] that make the fields
    of an in-range [datetime] fit their widths. *)
Definition era_day_ok (d : Z) : bool :=
  let '(y, m, dd) := civil_of_era_day d in
  (0 <=? y) && (y <=? 400) && (1 <=? m) && (m <=? 12)
  && (1 <=? dd) && (dd <=? 31)
  && ((d <? 306) || (1 <=? y)) && ((146036 <? d) || (y <=? 399)).

(** [f] holds of the [n] integers from [d] on. *)
Fixpoint all_from (n : nat) (d : Z) (f : Z -> bool) : bool :=
  match n with
  | O => true
  | S n' => f d && all_from n' (d + 1) f
  end.

(** The value of a string of decimal digits, most significant first. *)
Fixpoint decimal_value (acc : Z) (s : string) : Z :=
  match s with
  | EmptyString => acc
  | String c s' => decimal_value (10 * acc + (Z.of_nat (nat_of_ascii c) - 48)) s'
  end.

(** A text written with apostrophes in place of the double quotes of
    JSON. *)
Fixpoint with_quotes (s : string) : string :=
  match s with
  | EmptyString => EmptyString
  | String c s' =>
      String (if Ascii.eqb c "'" then Json.quote else c) (with_quotes s')
  end.

(* ===================================================================== *)
(** ** Response headers and the [after_request] hook *)
(* ===================================================================== *)

Module Headers.

(** [str.lower] on the ASCII letters. *)
Definition lower_char (c : ascii) : ascii :=
  let n := nat_of_ascii c in
  if ((65 <=? n) && (n <=? 90))%nat then ascii_of_nat (n + 32) else c.

Fixpoint lower (s : string) : string :=
  match s with
  | EmptyString => EmptyString
  | String c s' => String (lower_char c) (lower s')
  end.

(** Header names are compared without regard to case. *)
Definition same_key (a b : string) : bool := String.eqb (lower a) (lower b).

(** The list of [(name, value)] pairs of a [werkzeug] [Headers] object. *)
Definition t : Type := list (string * string).

(** [headers.get(k)]: the value of the first entry named [k]. *)
Fixpoint get (k : string) (h : t) : option string :=
  match h with
  | [] => None
  | (k', v) :: h' => if same_key k' k then Some v else get k h'
  end.

(** The entries that are not named [k]. *)
Fixpoint remove (k : string) (h : t) : t :=
  match h with
  | [] => []
  | (k', v) :: h' =>
      if same_key k' k then remove k h' else (k', v) :: remove k h'
  end.

(** [headers[k] = v]: the first entry named [k] is replaced and the later
    ones are dropped; when there is none the pair is added at the end. *)
Fixpoint set (k v : string) (h : t) : t :=
  match h with
  | [] => [(k, v)]
  | (k', v') :: h' =>
      if same_key k' k then (k, v) :: remove k h' else (k', v') :: set k v h'
  end.

(** The number of entries named [k]. *)
Fixpoint count (k : string) (h : t) : nat :=
  match h with
  | [] => O
  | (k', _) :: h' => ((if same_key k' k then 1 else 0) + count k h')%nat
  end.

End Headers.

(** [_headers(resp)], on the headers of the response: the four
    assignments, in the order of the source. *)
Definition _headers (h : Headers.t) : Headers.t :=
  Headers.set "Cache-Control" "no-store"
    (Headers.set "X-Frame-Options" "SAMEORIGIN"
       (Headers.set "Referrer-Policy" "no-referrer"
          (Headers.set "X-Content-Type-Options" "nosniff" h)))%string.

(** The [headers=] argument of the [Response] that [events] returns. *)
Definition events_headers : Headers.t :=
  [ ("Cache-Control", "no-cache");
    ("Connection", "keep-alive");
    ("X-Accel-Buffering", "no") ]%string.

(** The names that [_headers] assigns. *)
Definition default_header_names : list string :=
  [ "X-Content-Type-Options"; "Referrer-Policy"; "X-Frame-Options";
    "Cache-Control" ]%string.

(** [k] is none of the names that [_headers] assigns. *)
Definition not_a_default (k : string) : bool :=
  forallb (fun d => negb (Headers.same_key d k)) default_header_names.

(* ===================================================================== *)
(** ** Further notions *)
(* ===================================================================== *)

(** The response of the view functions that read no shared state, and of
    the framework when no rule matches. *)
Definition plain_response (r : Route) : option Output :=
  match r with
  | Home => Some HomePage
  | Healthz => Some (TextResponse 200 "ok")
  | Other => Some NotFound
  | ApiStatus | Events => None
  end.

(** An item of the stream whose payload reports at least one request and
    a last hit. *)
Definition counted_message (item : string) : Prop :=
  exists (up total : Z) (l ts : datetime),
    1 <= total
    /\ item = sse_message
                [ ("uptime", Json.Int up);
                  ("total_requests", Json.Int total);
                  ("last_hit_utc", Json.Str (isoformat l));
                  ("ts", Json.Str (isoformat ts)) ]%string.

(** Every item that the thread has produced is a [counted_message]. *)
Definition items_counted (t : Thread) : Prop :=
  Forall (fun o => match o with
                   | Sent m | WriteFailed m => counted_message m
                   | _ => True
                   end) (out t)
  /\ match pc t with GenYield m => counted_message m | _ => True end.

(** Reading back the text of [isoformat]: [read_digits w acc s] reads
    [w] decimal digits from the front of [s]. *)
Fixpoint read_digits (w : nat) (acc : Z) (s : string) : option (Z * string) :=
  match w with
  | O => Some (acc, s)
  | S w' =>
      match s with
      | String c s' =>
          if Shape.is_digit c
          then read_digits w' (10 * acc + (Z.of_nat (nat_of_ascii c) - 48)) s'
          else None
      | EmptyString => None
      end
  end.

Definition expect (c : ascii) (s : string) : option string :=
  match s with
  | String c' s' => if Ascii.eqb c c' then Some s' else None
  | EmptyString => None
  end.

(** The fraction of a second, in microseconds, and the UTC offset. *)
Definition parse_fraction (s : string) : option Z :=
  if String.eqb s "+00:00" then Some 0
  else match expect "." s with
       | Some s1 =>
           match read_digits 6 0 s1 with
           | Some (us, s2) => if String.eqb s2 "+00:00" then Some us else None
           | None => None
           end
       | None => None
       end.

(** The fields [(year, month, day, hour, minute, second, microsecond)]
    of a text in the format of [isoformat]. *)
Definition parse_iso (s : string) : option (Z * Z * Z * Z * Z * Z * Z) :=
  match read_digits 4 0 s with
  | Some (y, s1) =>
  match expect "-" s1 with
  | Some s2 =>
  match read_digits 2 0 s2 with
  | Some (m, s3) =>
  match expect "-" s3 with
  | Some s4 =>
  match read_digits 2 0 s4 with
  | Some (d, s5) =>
  match expect "T" s5 with
  | Some s6 =>
  match read_digits 2 0 s6 with
  | Some (hh, s7) =>
  match expect ":" s7 with
  | Some s8 =>
  match read_digits 2 0 s8 with
  | Some (mi, s9) =>
  match expect ":" s9 with
  | Some s10 =>
  match read_digits 2 0 s10 with
  | Some (ss, s11) =>
  match parse_fraction s11 with
  | Some us => Some (y, m, d, hh, mi, ss, us)
  | None => None
  end
  | None => None end
  | None => None end
  | None => None end
  | None => None end
  | None => None end
  | None => None end
  | None => None end
  | None => None end
  | None => None end
  | None => None end
  | None => None end.

(* ===================================================================== *)
(** ** Sample runs *)
(* ===================================================================== *)

(** A process and requests for the sample runs. *)
Definition demo_process : Process :=
  {| python_version := "3.11.2"; WEBSITE_SITE_NAME := None |}.

Definition demo_request (r : Route) : Request :=
  {| route := r; x_forwarded_for := None; remote_addr := Some "10.0.0.1"%string |}.

Definition tick (n : Z) : Env := {| now := n; write_ok := true |}.

(** Two requests whose hooks interleave: the second thread asks for the
    lock while the first one is between its read and its write. *)
Definition demo_race : Schedule :=
  [ (0%nat, tick 11); (0%nat, tick 12); (1%nat, tick 13); (0%nat, tick 14);
    (1%nat, tick 15); (0%nat, tick 16); (0%nat, tick 17); (1%nat, tick 18);
    (1%nat, tick 19); (1%nat, tick 20); (1%nat, tick 21); (1%nat, tick 22) ].

(** A request to [/api/status] that runs while a request to [/events] is
    being counted. *)
Definition demo_status_run : Schedule :=
  [ (0%nat, tick 11); (0%nat, tick 12); (1%nat, tick 13); (0%nat, tick 14);
    (0%nat, tick 16); (0%nat, tick 17); (1%nat, tick 18); (1%nat, tick 19);
    (0%nat, tick 20); (1%nat, tick 21); (1%nat, tick 22); (1%nat, tick 23);
    (0%nat, tick 24); (0%nat, tick 25); (0%nat, tick 26); (0%nat, tick 27);
    (0%nat, tick 5000028) ].

(** A stream that has written two items and fails to write the third. *)
Definition demo_stream_run : Schedule :=
  solo 0 (map tick [11; 12; 13; 14; 15; 16;
                    21; 22; 23; 24; 1000025; 1000026; 1000027; 1000028;
                    2000031; 2000032; 2000033; 2000034; 2000035; 2000036;
                    2000037; 3000038;
                    3000041; 3000042; 3000043; 3000044; 4000045; 4000046])
  ++ [(0%nat, {| now := 4000047; write_ok := false |}); (0%nat, tick 4000048)].

(** The thread of the stream at the end of [demo_stream_run]. *)
Definition demo_stream_thread : Thread :=
  Eval vm_compute in
    nth 0 (pool (run demo_stream_run (boot demo_process 10 [demo_request Events])))
        (start (demo_request Events)).

(** The item whose write failed in [demo_stream_run]. *)
Definition demo_failed_item : string :=
  Eval vm_compute in
    match last (out demo_stream_thread) with
    | Some (WriteFailed m) => m
    | _ => EmptyString
    end.

(** The dictionary of the response written in [demo_status_run]. *)
Definition demo_status_body : Json.dict :=
  Eval vm_compute in
    match nth 0 (pool (run demo_status_run
                         (boot demo_process 10
                            [demo_request ApiStatus; demo_request Events])))
              (start (demo_request ApiStatus)) with
    | {| out := [JsonResponse d] |} => d
    | _ => []
    end.

(* ===================================================================== *)
(** * Properties *)
(* ===================================================================== *)

(** ** Sample values, as CPython prints them *)

Section Samples.
#[local] Open Scope string_scope.
#[local] Open Scope Z_scope.

Example isoformat_epoch : isoformat 0 = "1970-01-01T00:00:00+00:00".
Proof. reflexivity. Qed.

Example isoformat_fraction :
  isoformat 1700000000123456 = "2023-11-14T22:13:20.123456+00:00".
Proof. reflexivity. Qed.

Example isoformat_before_epoch :
  isoformat (-1) = "1969-12-31T23:59:59.999999+00:00".
Proof. reflexivity. Qed.

Example isoformat_leap_day :
  isoformat 1709164800000500 = "2024-02-29T00:00:00.000500+00:00".
Proof. reflexivity. Qed.

Example isoformat_not_leap :
  isoformat 4107542399999999 = "2100-02-28T23:59:59.999999+00:00".
Proof. reflexivity. Qed.

Example isoformat_min : isoformat MIN_US = "0001-01-01T00:00:00+00:00".
Proof. reflexivity. Qed.

Example isoformat_max : isoformat MAX_US = "9999-12-31T23:59:59.999999+00:00".
Proof. reflexivity. Qed.

Example uptime_truncates : int_total_seconds 5999999 = 5.
Proof. reflexivity. Qed.

Example uptime_truncates_towards_zero : int_total_seconds (-1500000) = -1.
Proof. reflexivity. Qed.

(** Below [2^34] seconds the float truncates to the whole seconds; at
    [2^34] seconds and 999999 microseconds it is the next integer. *)
Example uptime_last_exact :
  int_total_seconds 17179869183999999 = 17179869183.
Proof. vm_compute. reflexivity. Qed.

Example uptime_rounds_up :
  int_total_seconds 17179869184999999 = 17179869185.
Proof. vm_compute. reflexivity. Qed.

Example uptime_rounds_up_behind :
  int_total_seconds (-17179869184999999) = -17179869185.
Proof. vm_compute. reflexivity. Qed.

Example dumps_escapes :
  Json.dumps [("a", Json.Str (String "010" (String "233" "b")))]
  = with_quotes "{'a': '\n\u00e9b'}".
Proof. reflexivity. Qed.

(** Five seconds after the start, three requests counted, no hit
    recorded, sampled at 2023-11-14T22:13:20.123456Z. *)
Example message_sample :
  Generator.iteration
    {| STARTED_AT := 1699999995000000; _LOCK := false;
       _TOTAL_REQUESTS := 3; _LAST_HIT_UTC := None |}
    1700000000000000 1700000000123456
  = with_quotes
      "data: {'uptime': 5, 'total_requests': 3, 'last_hit_utc': null, 'ts': '2023-11-14T22:13:20.123456+00:00'}"
    ++ String Json.newline (String Json.newline "").
Proof. reflexivity. Qed.

End Samples.

(** ** The texts: ISO 8601 timestamps and one-line JSON *)

Section TextLemmas.
#[local] Open Scope string_scope.
#[local] Open Scope Z_scope.
Import Shape.

(** A property checked on each integer of an interval holds on the
    interval. *)
Lemma all_from_spec (n : nat) (d : Z) (f : Z -> bool) :
  all_from n d f = true -> forall k : Z, d <= k < d + Z.of_nat n -> f k = true.
Proof.
  revert d. induction n as [| n IH]; cbn [all_from]; intros d H k Hk; [lia |].
  apply andb_true_iff in H as [H1 H2].
  destruct (Z.eq_dec k d) as [-> | Hne]; [exact H1 |].
  apply (IH (d + 1) H2). lia.
Qed.

Lemma digit_is_digit (n : Z) : 0 <= n < 10 -> is_digit (digit n) = true.
Proof.
  intros H.
  apply (all_from_spec 10 0 (fun k => is_digit (digit k)) eq_refl). cbn. lia.
Qed.

Lemma is_digit_printable (c : ascii) : is_digit c = true -> is_printable c = true.
Proof.
  unfold is_digit, is_printable. intros H.
  apply andb_true_iff in H as [H1 H2].
  apply Nat.leb_le in H1. apply Nat.leb_le in H2.
  apply andb_true_iff. split; apply Nat.leb_le; lia.
Qed.

Lemma printable_app (a b : string) :
  printable (a ++ b) = printable a && printable b.
Proof.
  induction a as [| c a IH]; simpl; [reflexivity |].
  rewrite IH. apply andb_assoc.
Qed.

Lemma digits_add (a b : nat) (k : string -> bool) (s : string) :
  digits (a + b) k s = digits a (digits b k) s.
Proof.
  revert s. induction a as [| a IH]; intros s; simpl; [reflexivity |].
  destruct s as [| c s]; [reflexivity |]. now rewrite IH.
Qed.

Lemma append_assoc (a b c : string) : (a ++ b) ++ c = a ++ (b ++ c).
Proof. induction a as [| x a IH]; simpl; [reflexivity | now rewrite IH]. Qed.

Lemma digits_zero_padded (w : nat) (n : Z) (k : string -> bool) (rest : string) :
  digits w k (zero_padded w n ++ rest) = k rest.
Proof.
  revert n k rest. induction w as [| w IH]; intros n k rest; [reflexivity |].
  replace (S w) with (w + 1)%nat at 1 by lia.
  rewrite digits_add. cbn [zero_padded]. rewrite append_assoc, IH.
  cbn [append digits]. rewrite digit_is_digit; [reflexivity |].
  apply Z.mod_pos_bound. lia.
Qed.

Lemma printable_zero_padded (w : nat) (n : Z) : printable (zero_padded w n) = true.
Proof.
  revert n. induction w as [| w IH]; intros n; [reflexivity |].
  cbn [zero_padded]. rewrite printable_app, IH. cbn [printable andb].
  rewrite is_digit_printable; [reflexivity |].
  apply digit_is_digit, Z.mod_pos_bound. lia.
Qed.

Lemma isoformat_iso8601 (t : datetime) : iso8601_utc (isoformat t) = true.
Proof.
  unfold iso8601_utc, time_of_day, isoformat.
  rewrite digits_zero_padded. cbn [append lit Ascii.eqb Bool.eqb andb].
  rewrite digits_zero_padded. cbn [append lit Ascii.eqb Bool.eqb andb].
  rewrite digits_zero_padded. cbn [append lit Ascii.eqb Bool.eqb andb].
  rewrite digits_zero_padded. cbn [append lit Ascii.eqb Bool.eqb andb].
  rewrite digits_zero_padded. cbn [append lit Ascii.eqb Bool.eqb andb].
  rewrite digits_zero_padded.
  unfold fraction_and_offset.
  destruct (microsecond t =? 0).
  - reflexivity.
  - cbn [append lit Ascii.eqb Bool.eqb andb utc_offset String.eqb].
    rewrite digits_zero_padded. reflexivity.
Qed.

Lemma printable_isoformat (t : datetime) : printable (isoformat t) = true.
Proof.
  unfold isoformat.
  repeat (rewrite printable_app, ?printable_zero_padded; cbn [printable andb]).
  destruct (microsecond t =? 0); [reflexivity |].
  rewrite printable_app, printable_zero_padded. reflexivity.
Qed.

Lemma printable_escape_char (c : ascii) : printable (Json.escape_char c) = true.
Proof. destruct c as [[] [] [] [] [] [] [] []]; reflexivity. Qed.

Lemma printable_escape (s : string) : printable (Json.escape s) = true.
Proof.
  induction s as [| c s IH]; [reflexivity |].
  cbn [Json.escape]. now rewrite printable_app, printable_escape_char, IH.
Qed.

Lemma printable_dumps_str (s : string) : printable (Json.dumps_str s) = true.
Proof.
  unfold Json.dumps_str. cbn [printable]. rewrite printable_app, printable_escape.
  reflexivity.
Qed.

Lemma printable_uint (d : Decimal.uint) :
  printable (NilEmpty.string_of_uint d) = true.
Proof.
  induction d; cbn [NilEmpty.string_of_uint printable]; try rewrite IHd; reflexivity.
Qed.

Lemma printable_dumps_int (n : Z) : printable (Json.dumps_int n) = true.
Proof.
  unfold Json.dumps_int, NilZero.string_of_int, NilZero.string_of_uint.
  destruct (Z.to_int n) as [d | d]; destruct d; cbn [printable is_printable];
    rewrite ?printable_uint; reflexivity.
Qed.

Lemma printable_dumps_value (v : Json.value) : printable (Json.dumps_value v) = true.
Proof.
  destruct v as [| [] | n | s]; cbn [Json.dumps_value]; try reflexivity.
  - apply printable_dumps_int.
  - apply printable_dumps_str.
Qed.

Lemma printable_join (sep : string) (l : list string) :
  printable sep = true -> Forall (fun x => printable x = true) l ->
  printable (Json.join sep l) = true.
Proof.
  intros Hsep Hl. induction Hl as [| x l Hx Hl IH]; [reflexivity |].
  destruct l as [| y l]; [exact Hx |].
  change (Json.join sep (x :: y :: l)) with (x ++ sep ++ Json.join sep (y :: l)).
  now rewrite !printable_app, Hx, Hsep, IH.
Qed.

(** [json.dumps] writes one line of printable ASCII, whatever the keys
    and the strings of the dictionary are. *)
Lemma printable_dumps (d : Json.dict) : printable (Json.dumps d) = true.
Proof.
  unfold Json.dumps. cbn [append printable is_printable].
  rewrite printable_app. cbn [printable andb].
  rewrite printable_join; [reflexivity | reflexivity |].
  apply Forall_map, Forall_forall. intros [k v] _.
  unfold Json.dumps_item. cbn [fst snd].
  now rewrite !printable_app, printable_dumps_str, printable_dumps_value.
Qed.

Lemma payload_is_payload (g : Globals) (total : Z) (l : option datetime)
    (n1 n2 : datetime) :
  is_payload (payload g total (last_hit_text l) n1 n2) = true.
Proof.
  unfold payload, is_payload.
  destruct l as [t |];
    cbn [String.eqb Ascii.eqb Bool.eqb is_int andb is_timestamp last_hit_text
         opt_str is_timestamp_or_null];
    rewrite ?isoformat_iso8601; reflexivity.
Qed.

Lemma payload_message (g : Globals) (total : Z) (l : option datetime)
    (n1 n2 : datetime) :
  is_message (sse_message (payload g total (last_hit_text l) n1 n2)).
Proof.
  eexists. split; [reflexivity |]. split.
  - apply payload_is_payload.
  - apply printable_dumps.
Qed.

Lemma api_status_body_fields (p : Process) (r : Request) (g : Globals)
    (total : Z) (l : option datetime) (n : datetime) :
  has_status_fields (api_status_body p r g total (last_hit_text l) n) = true.
Proof.
  unfold has_status_fields, api_status_body.
  destruct l as [t |];
    cbn [Json.get String.eqb Ascii.eqb Bool.eqb is_int andb last_hit_text
         opt_str is_timestamp_or_null];
    rewrite ?isoformat_iso8601; reflexivity.
Qed.

End TextLemmas.

(** ** The thread machine: counting and the invariant *)

Section Counting.
Variable f : Thread -> bool.

Lemma count_if_app (l1 l2 : list Thread) :
  count_if f (l1 ++ l2) = count_if f l1 + count_if f l2.
Proof. induction l1 as [| t l1 IH]; cbn [count_if app]; lia. Qed.

Lemma count_if_nonneg (l : list Thread) : 0 <= count_if f l.
Proof. induction l as [| t l IH]; cbn [count_if]; [| destruct (f t)]; lia. Qed.

Lemma count_if_none (l : list Thread) :
  count_if f l = 0 -> Forall (fun t => f t = false) l.
Proof.
  induction l as [| t l IH]; cbn [count_if]; intros H; [constructor |].
  pose proof (count_if_nonneg l). destruct (f t) eqn:E; [lia |].
  constructor; [exact E | apply IH; lia].
Qed.

Lemma count_if_all (l : list Thread) :
  Forall (fun t => f t = true) l -> count_if f l = Z.of_nat (length l).
Proof.
  induction 1 as [| t l Ht _ IH]; [reflexivity |].
  cbn [count_if length]. rewrite Ht, IH. lia.
Qed.

End Counting.

Lemma step_split (c : Config) (i : nat) (e : Env) (t t' : Thread) (g' : Globals) :
  pool c !! i = Some t ->
  thread_step (process c) e (globals c) t = Some (g', t') ->
  pool c = take i (pool c) ++ t :: drop (S i) (pool c)
  /\ step c (i, e) =
       {| process := process c; globals := g';
          pool := take i (pool c) ++ t' :: drop (S i) (pool c) |}.
Proof.
  intros Hi Hs. split.
  - symmetry. now apply take_drop_middle.
  - unfold step. cbn [fst snd]. rewrite Hi, Hs. f_equal.
    apply insert_take_drop. eapply lookup_lt_Some, Hi.
Qed.

Lemma step_stuck (c : Config) (i : nat) (e : Env) :
  (forall t, pool c !! i = Some t ->
             thread_step (process c) e (globals c) t = None) ->
  step c (i, e) = c.
Proof.
  intros H. unfold step. cbn [fst snd].
  destruct (pool c !! i) as [t |] eqn:Hi; [| reflexivity].
  now rewrite (H t eq_refl).
Qed.

(** A thread that does not hold the lock keeps what it knows when the
    holder of the lock writes the counters. *)
Lemma thread_ok_idle (g g' : Globals) (u : Thread) :
  holds_lock u = false ->
  (_LAST_HIT_UTC g <> None -> _LAST_HIT_UTC g' <> None) ->
  thread_ok g u -> thread_ok g' u.
Proof.
  intros Hu Hl [[Hs Hloc] Hrest]. split; [| exact Hrest]. split; [auto |].
  destruct u as [r [] o]; cbn in *; try exact I; try discriminate; exact Hloc.
Qed.

(** Taking or releasing the lock changes what no thread knows. *)
Lemma thread_ok_frame (g g' : Globals) (u : Thread) :
  _TOTAL_REQUESTS g' = _TOTAL_REQUESTS g ->
  _LAST_HIT_UTC g' = _LAST_HIT_UTC g ->
  thread_ok g u -> thread_ok g' u.
Proof.
  intros Ht Hl [[Hs Hloc] Hrest]. split; [| exact Hrest]. split.
  - rewrite Hl. exact Hs.
  - destruct (pc u); rewrite ?Ht, ?Hl; exact Hloc.
Qed.

Lemma stream_trace_snoc (items : list string) (m : string) :
  (stream_trace items ++ [Sent m]) ++ [Slept 1] = stream_trace (items ++ [m]).
Proof.
  unfold stream_trace. rewrite flat_map_app. cbn [flat_map app].
  rewrite <- !app_assoc, <- !app_comm_cons. reflexivity.
Qed.


Lemma last_hit_text_some (l : option datetime) :
  l <> None -> exists t : datetime, last_hit_text l = Some (isoformat t).
Proof. destruct l as [t |]; [eauto | congruence]. Qed.

Lemma stream_trace_nil : [StreamOpened] = stream_trace [].
Proof. reflexivity. Qed.

Lemma counted_status_body (p : Process) (r : Request) (g : Globals)
    (total : Z) (l n : datetime) :
  1 <= total ->
  counted_status (api_status_body p r g total (Some (isoformat l)) n).
Proof.
  intros Ht. split; [| split].
  - exists total. split; [reflexivity | exact Ht].
  - exists l. reflexivity.
  - apply (api_status_body_fields p r g total (Some l) n).
Qed.

(** The thread that moves keeps its own part of the invariant. *)
Lemma thread_step_ok (p : Process) (e : Env) (g g' : Globals) (t t' : Thread) :
  thread_ok g t ->
  (counted t = true -> 1 <= _TOTAL_REQUESTS g) ->
  thread_step p e g t = Some (g', t') ->
  thread_ok g' t'.
Proof.
  intros [[Hstamp Hloc] [Htr Hout]] Hc Hs.
  destruct t as [r k o]. unfold thread_step in Hs.
  unfold thread_ok, local_ok, trace_ok in *.
  cbn [pc request out stamped counted] in *.
  destruct k;
    repeat match type of Hs with
    | context [if _LOCK ?x then _ else _] => destruct (_LOCK x) eqn:Elock
    | context [route ?x] => destruct (route x) eqn:Er
    | context [write_ok ?x] => destruct (write_ok x) eqn:Ew
    end;
    try discriminate; inversion Hs; subst g' t'; clear Hs;
    cbn [goto emit pc out request stamped set_lock set_total set_last
         _TOTAL_REQUESTS _LAST_HIT_UTC] in *;
    rewrite ?Er.
  all: repeat match goal with
       | H : _ /\ _ |- _ => destruct H
       | H : exists _, _ |- _ => destruct H
       end; subst.
  all: try match goal with H : route ?x = _ |- _ => rewrite H end.
  all: repeat match goal with |- _ /\ _ => split end.
  all: try solve [ assumption | discriminate | congruence | reflexivity
                 | exact I | intros _; assumption | auto ].
  all: try solve [ apply Forall_app; split; [assumption |];
                   repeat constructor; assumption ].
  all: try solve [ eauto | exists []; reflexivity
                 | apply last_hit_text_some; auto
                 | eexists; apply stream_trace_snoc ].
  - constructor; [| constructor]. now apply counted_status_body.
  - match goal with |- is_message (sse_message (payload _ _ (Some (isoformat ?l)) _ _)) =>
      apply (payload_message g total (Some l)) end.
Qed.

Lemma Forall_idle (g g' : Globals) (l : list Thread) :
  Forall (fun u => holds_lock u = false) l ->
  (_LAST_HIT_UTC g <> None -> _LAST_HIT_UTC g' <> None) ->
  Forall (thread_ok g) l -> Forall (thread_ok g') l.
Proof.
  intros Hi Hl Hok. induction Hok as [| u l Hu _ IH]; [constructor |].
  apply Forall_cons in Hi as [Hi1 Hi2].
  constructor; [eapply thread_ok_idle; eassumption | exact (IH Hi2)].
Qed.

Lemma thread_step_inv (started : datetime) (p : Process) (e : Env)
    (g g' : Globals) (t t' : Thread) (l1 l2 : list Thread) :
  Inv started {| process := p; globals := g; pool := l1 ++ t :: l2 |} ->
  thread_step p e g t = Some (g', t') ->
  Inv started {| process := p; globals := g'; pool := l1 ++ t' :: l2 |}.
Proof.
  intros [Hst Hlk Htot Hlast Hth] Hs. cbn [globals pool] in *.
  rewrite count_if_app in Hlk, Htot. cbn [count_if] in Hlk, Htot.
  apply Forall_app in Hth as [H1 Hth]. apply Forall_cons in Hth as [Ht H2].
  pose proof (count_if_nonneg holds_lock l1) as Ln1.
  pose proof (count_if_nonneg holds_lock l2) as Ln2.
  pose proof (count_if_nonneg counted l1) as Cn1.
  pose proof (count_if_nonneg counted l2) as Cn2.
  assert (Hidle : holds_lock t = true ->
            Forall (fun u => holds_lock u = false) l1
            /\ Forall (fun u => holds_lock u = false) l2).
  { intros Hh. rewrite Hh in Hlk.
    split; apply count_if_none; destruct (_LOCK g); lia. }
  assert (Hown : thread_ok g' t').
  { apply (thread_step_ok p e g g' t t' Ht); [| exact Hs].
    intros Hc. rewrite Hc in Htot. lia. }
  destruct Ht as [[Hstamp Hloc] _].
  destruct t as [r k o]. unfold thread_step in Hs. cbn [pc request out] in *.
  destruct k; cbn [holds_lock counted stamped pc] in *.
  all: repeat match type of Hs with
       | context [if _LOCK ?x then _ else _] => destruct (_LOCK x) eqn:Elock
       | context [route ?x] => destruct (route x) eqn:Er
       | context [write_ok ?x] => destruct (write_ok x) eqn:Ew
       end.
  all: try discriminate.
  all: inversion Hs; subst g' t'; clear Hs.
  all: split; cbn [globals pool set_lock set_total set_last STARTED_AT _LOCK
                   _TOTAL_REQUESTS _LAST_HIT_UTC];
       rewrite ?count_if_app; cbn [count_if holds_lock counted stamped goto emit pc].
  all: try assumption.
  all: try (destruct (_LOCK g); lia).
  all: try (intros Hx; specialize (Hlast Hx); lia).
  all: apply Forall_app; split; [| apply Forall_cons; split].
  all: try assumption.
  all: try (eapply Forall_impl; [eassumption |];
            intros u; apply thread_ok_frame; reflexivity).
  all: destruct (Hidle eq_refl) as [I1 I2].
  all: eapply Forall_idle; [eassumption | | eassumption].
  all: cbn; intros; congruence.
Qed.

(** Every step of the scheduler keeps the invariant. *)
Lemma step_inv (started : datetime) (c : Config) (ie : nat * Env) :
  Inv started c -> Inv started (step c ie).
Proof.
  intros HI. destruct ie as [i e].
  destruct (pool c !! i) as [t |] eqn:Hi.
  - destruct (thread_step (process c) e (globals c) t) as [[g' t'] |] eqn:Hs.
    + destruct (step_split c i e t t' g' Hi Hs) as [Hp ->].
      eapply thread_step_inv; [| exact Hs].
      rewrite <- Hp. destruct c; exact HI.
    + rewrite step_stuck; [exact HI |]. intros t0 Ht0. congruence.
  - rewrite step_stuck; [exact HI |]. intros t0 Ht0. congruence.
Qed.

Lemma run_inv (started : datetime) (s : Schedule) (c : Config) :
  Inv started c -> Inv started (run s c).
Proof.
  revert c. induction s as [| ie s IH]; intros c HI; [exact HI |].
  apply IH, step_inv, HI.
Qed.

Lemma count_if_start (f : Thread -> bool) (rs : list Request) :
  (forall r, f (start r) = false) -> count_if f (map start rs) = 0.
Proof.
  intros H. induction rs as [| r rs IH]; [reflexivity |].
  cbn [map count_if]. rewrite H, IH. reflexivity.
Qed.

Lemma boot_inv (p : Process) (started : datetime) (rs : list Request) :
  Inv started (boot p started rs).
Proof.
  split; cbn [boot globals pool initial STARTED_AT _LOCK _TOTAL_REQUESTS
              _LAST_HIT_UTC].
  - reflexivity.
  - now apply count_if_start.
  - symmetry. now apply count_if_start.
  - congruence.
  - apply Forall_map, Forall_forall. intros r _.
    repeat split; cbn; try discriminate; constructor.
Qed.

(** The invariant holds in every configuration that the process can
    reach. *)
Lemma reachable_inv (p : Process) (started : datetime) (rs : list Request)
    (s : Schedule) :
  Inv started (run s (boot p started rs)).
Proof. apply run_inv, boot_inv. Qed.

(** ** The claims *)

Lemma run_app (s1 s2 : Schedule) (c : Config) :
  run (s1 ++ s2) c = run s2 (run s1 c).
Proof. apply fold_left_app. Qed.

Lemma step_length (c : Config) (ie : nat * Env) :
  length (pool (step c ie)) = length (pool c).
Proof.
  unfold step. destruct (pool c !! fst ie) as [t |]; [| reflexivity].
  destruct (thread_step _ _ _ t) as [[g' t'] |]; [| reflexivity].
  cbn [pool]. apply length_insert.
Qed.

Lemma run_length (s : Schedule) (c : Config) :
  length (pool (run s c)) = length (pool c).
Proof.
  revert c. induction s as [| ie s IH]; intros c; [reflexivity |].
  cbn [run fold_left]. fold (run s (step c ie)). now rewrite IH, step_length.
Qed.

(** A step of the thread that stands behind [l1]. *)
Lemma step_at (p : Process) (e : Env) (g g' : Globals) (t t' : Thread)
    (l1 l2 : list Thread) :
  thread_step p e g t = Some (g', t') ->
  step {| process := p; globals := g; pool := l1 ++ t :: l2 |} (length l1, e)
  = {| process := p; globals := g'; pool := l1 ++ t' :: l2 |}.
Proof.
  intros Hs. unfold step. cbn [fst snd pool process globals].
  rewrite list_lookup_middle by reflexivity. rewrite Hs. f_equal.
  rewrite insert_app_r_alt by lia. now rewrite Nat.sub_diag.
Qed.

Ltac step_once :=
  match goal with
  | |- context [step {| process := ?p; globals := ?g; pool := ?l1 ++ ?t :: ?l2 |}
                     (length ?l1, ?e)] =>
      erewrite (step_at p e g _ t _ l1 l2); [| reflexivity]
  end.

(** Served in turn, the first [n] requests leave their hook one after the
    other, and the counters are those of [n] uninterrupted calls. *)
Lemma in_turn_run (p : Process) (started : datetime) (e : Env)
    (rs1 rs2 : list Request) :
  run (in_turn e (length rs1)) (boot p started (rs1 ++ rs2))
  = {| process := p; globals := after_hits started e (length rs1);
       pool := map served rs1 ++ map start rs2 |}.
Proof.
  revert rs2. induction rs1 as [| r rs1 IH] using rev_ind; intros rs2.
  - reflexivity.
  - rewrite length_app. cbn [length]. rewrite Nat.add_1_r. cbn [in_turn].
    rewrite run_app. replace ((rs1 ++ [r]) ++ rs2) with (rs1 ++ r :: rs2)
      by now rewrite <- app_assoc.
    rewrite IH. cbn [map].
    cbn [solo repeat map run fold_left].
    rewrite <- (length_map served rs1).
    do 5 step_once.
    unfold after_hits, set_lock, set_total, set_last, goto, start, served.
    cbn [STARTED_AT _LOCK _TOTAL_REQUESTS _LAST_HIT_UTC request pc out].
    rewrite map_app, <- app_assoc. cbn [map app]. f_equal. f_equal. lia.
Qed.

Lemma hook_done_counted (t : Thread) : hook_done t = true -> counted t = true.
Proof. destruct t as [r [] o]; cbn; congruence. Qed.

Lemma boot_length (p : Process) (started : datetime) (rs : list Request) :
  length (pool (boot p started rs)) = length rs.
Proof. apply length_map. Qed.

(** C1. Whatever the interleaving of the threads of N requests, once all
    of them have left the hook [_count_requests] a locked read of the
    counters returns [total_requests = N]: no increment is lost. Such
    configurations exist for every N: serving the requests in turn
    reaches one. *)
Theorem C1_no_lost_update (p : Process) (started : datetime) (rs : list Request) :
  (forall e : Env,
     all_hooks_done (run (in_turn e (length rs)) (boot p started rs)) = true)
  /\ (forall s : Schedule,
        all_hooks_done (run s (boot p started rs)) = true ->
        fst (snapshot (globals (run s (boot p started rs)))) = Z.of_nat (length rs)).
Proof.
  split.
  - intros e. pose proof (in_turn_run p started e rs []) as H.
    rewrite app_nil_r in H. rewrite H. unfold all_hooks_done. cbn [pool map].
    rewrite app_nil_r. apply forallb_forall. intros t Ht.
    apply in_map_iff in Ht as [r [<- _]]. reflexivity.
  - intros s Hd. cbn [snapshot fst].
    rewrite (inv_total _ _ (reachable_inv p started rs s)).
    rewrite count_if_all.
    + now rewrite run_length, boot_length.
    + apply Forall_forall. intros t Ht. apply hook_done_counted.
      unfold all_hooks_done in Hd. rewrite forallb_forall in Hd.
      apply Hd. now apply list_elem_of_In.
Qed.

Lemma C1_witness :
  all_hooks_done
    (run demo_race (boot demo_process 10 [demo_request ApiStatus; demo_request Events]))
  = true
  /\ fst (snapshot (globals
       (run demo_race (boot demo_process 10 [demo_request ApiStatus; demo_request Events]))))
     = 2.
Proof.
  split; [reflexivity |].
  apply (proj2 (C1_no_lost_update demo_process 10
                  [demo_request ApiStatus; demo_request Events]) demo_race).
  reflexivity.
Defined.

(** What one step of a thread does to the module state. *)
Lemma thread_step_globals (p : Process) (e : Env) (g g' : Globals) (t t' : Thread) :
  thread_step p e g t = Some (g', t') ->
  STARTED_AT g' = STARTED_AT g
  /\ _TOTAL_REQUESTS g' =
       match pc t with CountStore v => v + 1 | _ => _TOTAL_REQUESTS g end
  /\ _LAST_HIT_UTC g' =
       match pc t with CountStamp => Some (now e) | _ => _LAST_HIT_UTC g end.
Proof.
  unfold thread_step. intros Hs.
  destruct (pc t);
    repeat match type of Hs with
    | context [if _LOCK ?x then _ else _] => destruct (_LOCK x)
    | context [route ?x] => destruct (route x)
    | context [write_ok ?x] => destruct (write_ok x)
    end;
    try discriminate; inversion Hs; subst; repeat split.
Qed.

Lemma step_globals (started : datetime) (c : Config) (i : nat) (e : Env) :
  Inv started c ->
  match pool c !! i with
  | Some t =>
      _TOTAL_REQUESTS (globals (step c (i, e)))
      = _TOTAL_REQUESTS (globals c) + (if at_store t then 1 else 0)
      /\ (_LAST_HIT_UTC (globals (step c (i, e))) = _LAST_HIT_UTC (globals c)
          \/ at_stamp t = true
             /\ _LAST_HIT_UTC (globals (step c (i, e))) = Some (now e))
  | None => step c (i, e) = c
  end.
Proof.
  intros HI. destruct (pool c !! i) as [t |] eqn:Hi.
  - destruct (thread_step (process c) e (globals c) t) as [[g' t'] |] eqn:Hs.
    + destruct (step_split c i e t t' g' Hi Hs) as [_ ->]. cbn [globals].
      destruct (thread_step_globals _ _ _ _ _ _ Hs) as [_ [Ht Hl]].
      pose proof (inv_threads _ _ HI) as Hth.
      rewrite Forall_lookup in Hth. specialize (Hth i t Hi).
      destruct Hth as [[_ Hloc] _]. unfold at_store, at_stamp.
      destruct (pc t); rewrite Ht, Hl;
        (split; [lia | first [now left | right; split; reflexivity]]).
    + rewrite step_stuck by (intros; congruence).
      split; [destruct (at_store t) eqn:Ea; [| lia] | now left].
      exfalso. unfold at_store in Ea. unfold thread_step in Hs.
      destruct (pc t); discriminate.
  - apply step_stuck. intros; congruence.
Qed.

Lemma step_total_mono (started : datetime) (c : Config) (ie : nat * Env) :
  Inv started c ->
  _TOTAL_REQUESTS (globals c) <= _TOTAL_REQUESTS (globals (step c ie)).
Proof.
  intros HI. destruct ie as [i e].
  pose proof (step_globals started c i e HI) as H.
  destruct (pool c !! i) as [t |]; [| rewrite H; lia].
  destruct H as [-> _]. destruct (at_store t); lia.
Qed.

Lemma run_total_mono (started : datetime) (s : Schedule) (c : Config) :
  Inv started c ->
  _TOTAL_REQUESTS (globals c) <= _TOTAL_REQUESTS (globals (run s c)).
Proof.
  revert c. induction s as [| ie s IH]; intros c HI; [cbn; lia |].
  cbn [run fold_left]. fold (run s (step c ie)).
  etransitivity; [apply (step_total_mono started c ie HI) |].
  apply IH, step_inv, HI.
Qed.

Lemma lookup_thread_ok (started : datetime) (c : Config) (i : nat) (t : Thread) :
  Inv started c -> pool c !! i = Some t -> thread_ok (globals c) t.
Proof.
  intros HI Hi. pose proof (inv_threads _ _ HI) as Hth.
  rewrite Forall_lookup in Hth. exact (Hth i t Hi).
Qed.

(** Nothing is written to a client before its request is counted. *)
Lemma output_after_count (t : Thread) :
  trace_ok t -> out t <> [] -> hook_done t = true.
Proof.
  destruct t as [r k o]. unfold trace_ok, hook_done. cbn [pc out request].
  destruct k; intros H Ho; try reflexivity; congruence.
Qed.

(** C5. [_TOTAL_REQUESTS] is 0 when the process starts; no step of any
    thread lowers it; a step raises it by exactly 1 when it is the write
    in the hook of a request and leaves it unchanged otherwise, so that
    the counter is the number of requests whose hook has counted them;
    and a request is counted before its view function writes anything. *)
Theorem C5_total_requests_counts (p : Process) (started : datetime)
    (rs : list Request) (s s' : Schedule) (i : nat) (e : Env) (t : Thread) :
  let c := run s (boot p started rs) in
  _TOTAL_REQUESTS (globals (boot p started rs)) = 0
  /\ _TOTAL_REQUESTS (globals c) <= _TOTAL_REQUESTS (globals (run s' c))
  /\ _TOTAL_REQUESTS (globals c) = count_if counted (pool c)
  /\ (pool c !! i = Some t ->
        _TOTAL_REQUESTS (globals (step c (i, e)))
        = _TOTAL_REQUESTS (globals c) + (if at_store t then 1 else 0))
  /\ (pool c !! i = Some t -> (pc t = Dispatch \/ out t <> []) ->
        hook_done t = true /\ counted t = true).
Proof.
  intros c. pose proof (reachable_inv p started rs s) as HI. fold c in HI.
  split; [reflexivity |]. split; [apply (run_total_mono started), HI |].
  split; [apply (inv_total _ _ HI) |]. split.
  - intros Hi. pose proof (step_globals started c i e HI) as H.
    rewrite Hi in H. apply H.
  - intros Hi Hd. assert (Hh : hook_done t = true).
    { destruct Hd as [Hd | Hd].
      - unfold hook_done. now rewrite Hd.
      - destruct (lookup_thread_ok started c i t HI Hi) as [_ [Htr _]].
        now apply output_after_count. }
    split; [exact Hh | now apply hook_done_counted].
Qed.

Lemma C5_witness :
  let c := run demo_race
             (boot demo_process 10 [demo_request ApiStatus; demo_request Events]) in
  _TOTAL_REQUESTS (globals c) = 2
  /\ hook_done {| request := demo_request Events; pc := Dispatch; out := [] |}
     = true.
Proof.
  split; [reflexivity |].
  apply (proj2 (proj2 (proj2 (proj2
    (C5_total_requests_counts demo_process 10
       [demo_request ApiStatus; demo_request Events] demo_race [] 1 (tick 23)
       {| request := demo_request Events; pc := Dispatch; out := [] |}))))).
  - reflexivity.
  - left. reflexivity.
Defined.

(** C6. In every reachable configuration the counters never show a last
    hit without a counted request: neither the module state read at any
    instant, nor a pair that a thread has read under the lock. While the
    reader is still inside the lock its pair is the module state. *)
Theorem C6_last_hit_implies_counted (p : Process) (started : datetime)
    (rs : list Request) (s : Schedule) :
  let c := run s (boot p started rs) in
  (forall (n : Z) (l : string), snapshot (globals c) = (n, Some l) -> 1 <= n)
  /\ (forall (i : nat) (t : Thread) (n : Z) (l : string),
        pool c !! i = Some t -> held_snapshot t = Some (n, Some l) -> 1 <= n)
  /\ (forall (i : nat) (t : Thread) (n : Z) (l : option string),
        pool c !! i = Some t -> holds_lock t = true ->
        held_snapshot t = Some (n, l) -> snapshot (globals c) = (n, l)).
Proof.
  intros c. pose proof (reachable_inv p started rs s) as HI. fold c in HI.
  split; [| split].
  - intros n l H. unfold snapshot in H. inversion H; subst n.
    apply (inv_last _ _ HI). destruct (_LAST_HIT_UTC (globals c)); [congruence |].
    discriminate.
  - intros i t n l Hi Hh.
    destruct (lookup_thread_ok started c i t HI Hi) as [[Hst Hloc] _].
    unfold held_snapshot in Hh.
    destruct (pc t); inversion Hh; subst; try (destruct Hloc; assumption).
    all: destruct Hloc as [-> Hl]; apply (inv_last _ _ HI);
      destruct (_LAST_HIT_UTC (globals c)); [congruence | discriminate].
  - intros i t n l Hi Hl Hh.
    destruct (lookup_thread_ok started c i t HI Hi) as [[Hst Hloc] _].
    unfold held_snapshot in Hh. unfold holds_lock in Hl. unfold snapshot.
    destruct (pc t); inversion Hh; subst; try discriminate;
      destruct Hloc as [-> ->]; reflexivity.
Qed.

Lemma C6_witness :
  let c := run demo_status_run
             (boot demo_process 10 [demo_request ApiStatus; demo_request Events]) in
  snapshot (globals c) = (2, Some "1970-01-01T00:00:00.000022+00:00"%string)
  /\ 1 <= 2.
Proof.
  split; [reflexivity |].
  apply (proj1 (C6_last_hit_implies_counted demo_process 10
                  [demo_request ApiStatus; demo_request Events] demo_status_run)
           2 "1970-01-01T00:00:00.000022+00:00"%string).
  reflexivity.
Defined.






(** ** The float of [total_seconds()] *)

Section Binary64.

Lemma round_half_even_bounds (n d : Z) :
  0 < d -> 2 * n - d <= 2 * d * round_half_even n d <= 2 * n + d.
Proof.
  intros Hd. unfold round_half_even.
  pose proof (Z.div_mod n d ltac:(lia)) as E.
  pose proof (Z.mod_pos_bound n d Hd) as B.
  set (q := n / d) in *. set (r := n mod d) in *.
  assert (Eq : 2 * d * q = 2 * n - 2 * r) by lia.
  assert (Eq1 : 2 * d * (q + 1) = 2 * n - 2 * r + 2 * d) by lia.
  destruct (Z.ltb_spec (2 * r) d); [lia |].
  destruct (Z.ltb_spec d (2 * r)); [lia |].
  destruct (Z.even q); lia.
Qed.

Lemma round_half_even_mul (k d : Z) : 0 < d -> round_half_even (k * d) d = k.
Proof.
  intros Hd. unfold round_half_even.
  rewrite Z.div_mul, Z.mod_mul by lia.
  destruct (Z.ltb_spec (2 * 0) d); [reflexivity | lia].
Qed.

Lemma round_half_even_mono (n1 n2 d : Z) :
  0 < d -> n1 <= n2 -> round_half_even n1 d <= round_half_even n2 d.
Proof.
  intros Hd Hn. unfold round_half_even.
  pose proof (Z.div_mod n1 d ltac:(lia)) as E1.
  pose proof (Z.mod_pos_bound n1 d Hd) as B1.
  pose proof (Z.div_mod n2 d ltac:(lia)) as E2.
  pose proof (Z.mod_pos_bound n2 d Hd) as B2.
  pose proof (Z.div_le_mono n1 n2 d Hd Hn) as Hq.
  set (q1 := n1 / d) in *. set (r1 := n1 mod d) in *.
  set (q2 := n2 / d) in *. set (r2 := n2 mod d) in *.
  destruct (Z.eq_dec q1 q2) as [Heq | Hne].
  - assert (Hr : r1 <= r2) by (rewrite Heq in E1; lia). rewrite Heq.
    destruct (Z.ltb_spec (2 * r1) d); destruct (Z.ltb_spec (2 * r2) d);
      destruct (Z.ltb_spec d (2 * r1)); destruct (Z.ltb_spec d (2 * r2));
      destruct (Z.even q2); lia.
  - assert (q1 + 1 <= q2) by lia.
    destruct (Z.ltb_spec (2 * r1) d); destruct (Z.ltb_spec (2 * r2) d);
      destruct (Z.ltb_spec d (2 * r1)); destruct (Z.ltb_spec d (2 * r2));
      destruct (Z.even q1); destruct (Z.even q2); lia.
Qed.

(** Less than a unit of the divisor: the float is below 1. *)
Lemma int_true_div_small (a : Z) :
  0 <= a < 1000000 -> int_true_div a 1000000 = 0.
Proof.
  intros Ha. unfold int_true_div.
  destruct (Z.eqb_spec a 0) as [| Hne]; [reflexivity |].
  unfold quotient_exponent. destruct (Z.leb_spec 1000000 a) as [| _]; [lia |].
  assert (Hc : 1 < (1000000 + a - 1) / a).
  { assert (2 <= (1000000 + a - 1) / a) by (apply Z.div_le_lower_bound; lia).
    lia. }
  pose proof (Z.log2_up_pos _ Hc) as Hk.
  set (k := Z.log2_up ((1000000 + a - 1) / a)) in *.
  replace (52 - - k) with (52 + k) by lia.
  destruct (Z.leb_spec 0 (52 + k)) as [_ |]; [| lia].
  assert (HP : 2 ^ 53 <= 2 ^ (52 + k)) by (apply Z.pow_le_mono_r; lia).
  set (P := 2 ^ (52 + k)) in *.
  change (2 ^ 53) with 9007199254740992 in HP.
  pose proof (round_half_even_bounds (a * P) 1000000 ltac:(lia)) as [_ Hu].
  pose proof (round_half_even_mono 0 (a * P) 1000000 ltac:(lia) ltac:(nia)) as Hl.
  change 0 with (0 * 1000000) in Hl at 1. rewrite round_half_even_mul in Hl by lia.
  apply Z.div_small. split; [exact Hl |].
  assert (a * P <= 999999 * P) by nia. lia.
Qed.

(** At least a unit of the divisor: the result is the whole quotient or
    the next integer, and it is the whole quotient below [2^34]. *)
Lemma int_true_div_large (a : Z) :
  1000000 <= a -> a / 1000000 < 2 ^ 53 ->
  exists (s m : Z),
    0 <= s /\ s = 52 - Z.log2 (a / 1000000)
    /\ m = round_half_even (a * 2 ^ s) 1000000
    /\ int_true_div a 1000000 = m / 2 ^ s
    /\ a / 1000000 <= m / 2 ^ s <= a / 1000000 + 1
    /\ (a / 1000000 < 2 ^ 34 -> m / 2 ^ s = a / 1000000).
Proof.
  intros Ha Hq. unfold int_true_div.
  destruct (Z.eqb_spec a 0) as [| _]; [lia |].
  unfold quotient_exponent. destruct (Z.leb_spec 1000000 a) as [_ |]; [| lia].
  pose proof (Z.div_mod a 1000000 ltac:(lia)) as E.
  pose proof (Z.mod_pos_bound a 1000000 ltac:(lia)) as B.
  set (q := a / 1000000) in *. set (r := a mod 1000000) in *.
  assert (Hq1 : 1 <= q) by (apply Z.div_le_lower_bound; lia).
  assert (He : Z.log2 q < 53) by (apply Z.log2_lt_pow2; lia).
  pose proof (Z.log2_nonneg q) as He0.
  set (s := 52 - Z.log2 q) in *.
  destruct (Z.leb_spec 0 s) as [Hs |]; [| lia].
  exists s, (round_half_even (a * 2 ^ s) 1000000).
  assert (HP : 0 < 2 ^ s) by (apply Z.pow_pos_nonneg; lia).
  set (P := 2 ^ s) in *.
  set (m := round_half_even (a * P) 1000000).
  pose proof (round_half_even_bounds (a * P) 1000000 ltac:(lia)) as [_ Hu].
  fold m in Hu.
  assert (Hlow : q * P <= m).
  { pose proof (round_half_even_mono (q * P * 1000000) (a * P) 1000000
                  ltac:(lia) ltac:(nia)) as H.
    now rewrite round_half_even_mul in H by lia. }
  assert (Hup : m <= (q + 1) * P).
  { pose proof (round_half_even_mono (a * P) ((q + 1) * P * 1000000) 1000000
                  ltac:(lia) ltac:(nia)) as H.
    now rewrite round_half_even_mul in H by lia. }
  repeat split; try reflexivity; try lia.
  - apply Z.div_le_lower_bound; lia.
  - apply Z.div_le_upper_bound; lia.
  - intros H34. assert (Hl34 : Z.log2 q < 34) by (apply Z.log2_lt_pow2; lia).
    assert (HP19 : 2 ^ 19 <= P) by (apply Z.pow_le_mono_r; lia).
    change (2 ^ 19) with 524288 in HP19.
    assert (Hlt : m < (q + 1) * P).
    { assert (a * P <= (1000000 * q + 999999) * P) by nia. nia. }
    apply Z.le_antisymm.
    + apply Z.lt_succ_r, Z.div_lt_upper_bound; lia.
    + apply Z.div_le_lower_bound; lia.
Qed.

End Binary64.

(** For a duration that two datetimes of the type can be apart, the
    result is the whole quotient or the next integer. *)
Lemma int_true_div_bounds (a : Z) :
  0 <= a -> a / 1000000 < 2 ^ 53 ->
  a / 1000000 <= int_true_div a 1000000 <= a / 1000000 + 1.
Proof.
  intros Ha Hq. destruct (Z.lt_ge_cases a 1000000) as [Hs | Hl].
  - rewrite int_true_div_small by lia. rewrite Z.div_small by lia. lia.
  - destruct (int_true_div_large a Hl Hq) as [s [m [_ [_ [_ [-> [H _]]]]]]].
    exact H.
Qed.

Lemma int_true_div_exact (a : Z) :
  0 <= a < 2 ^ 34 * 1000000 -> int_true_div a 1000000 = a / 1000000.
Proof.
  intros Ha.
  assert (Hq : a / 1000000 < 2 ^ 34) by (apply Z.div_lt_upper_bound; lia).
  destruct (Z.lt_ge_cases a 1000000) as [Hs | Hl].
  - rewrite int_true_div_small by lia. now rewrite Z.div_small by lia.
  - assert (Hq53 : a / 1000000 < 2 ^ 53).
    { eapply Z.lt_trans; [exact Hq | reflexivity]. }
    destruct (int_true_div_large a Hl Hq53) as [s [m [_ [_ [_ [-> [_ H]]]]]]].
    now apply H.
Qed.

Lemma int_true_div_mono (a1 a2 : Z) :
  0 <= a1 <= a2 -> a2 / 1000000 < 2 ^ 53 ->
  int_true_div a1 1000000 <= int_true_div a2 1000000.
Proof.
  intros Ha Hq2.
  pose proof (Z.div_le_mono a1 a2 1000000 ltac:(lia) ltac:(lia)) as Hq.
  assert (Hq1 : a1 / 1000000 < 2 ^ 53) by lia.
  pose proof (int_true_div_bounds a1 ltac:(lia) Hq1) as B1.
  pose proof (int_true_div_bounds a2 ltac:(lia) Hq2) as B2.
  destruct (Z.eq_dec (a1 / 1000000) (a2 / 1000000)) as [Heq | Hne]; [| lia].
  assert (Hp : 0 <= a2 / 1000000) by (apply Z.div_pos; lia).
  destruct (Z.lt_ge_cases a1 1000000) as [Hs | Hl];
    [rewrite (int_true_div_small a1) by lia; lia |].
  destruct (int_true_div_large a1 Hl Hq1) as [s1 [m1 [Hp1 [Hs1 [Hm1 [E1 _]]]]]].
  destruct (int_true_div_large a2 ltac:(lia) Hq2) as [s2 [m2 [_ [Hs2 [Hm2 [E2 _]]]]]].
  rewrite E1, E2. rewrite <- Heq in Hs2.
  assert (Es : s2 = s1) by congruence. rewrite Es in *. clear Es Hs2.
  apply Z.div_le_mono; [apply Z.pow_pos_nonneg; lia |].
  rewrite Hm1, Hm2. apply round_half_even_mono; [lia |].
  apply Z.mul_le_mono_nonneg_r; [apply Z.pow_nonneg |]; lia.
Qed.

(** Two datetimes of the type are less than [2^53] seconds apart. *)
Lemma in_range_apart (t1 t2 : datetime) :
  in_range t1 = true -> in_range t2 = true ->
  (t2 - t1) / 1000000 < 2 ^ 53.
Proof.
  unfold in_range, MIN_US, MAX_US. rewrite !andb_true_iff, !Z.leb_le.
  intros [H1 H1'] [H2 H2']. apply Z.div_lt_upper_bound; [lia |].
  change (2 ^ 53) with 9007199254740992. lia.
Qed.

(** C8, as amended. For datetimes of the type with [now >= STARTED_AT],
    [_uptime_seconds] is the whole-second difference or the next integer,
    it is not negative, and a later reading gives no smaller value; it is
    exactly the whole-second difference, the integer [u] with
    [u s <= now - STARTED_AT < (u + 1) s], when the difference is less
    than [2^34] seconds; and five seconds after the start it is 5. *)
Theorem C8_uptime_whole_seconds (g : Globals) (now1 now2 : datetime) :
  in_range (STARTED_AT g) = true -> in_range now1 = true ->
  in_range now2 = true ->
  STARTED_AT g <= now1 -> now1 <= now2 ->
  (now1 - STARTED_AT g < EXACT_US ->
     US_PER_SECOND * _uptime_seconds now1 g <= now1 - STARTED_AT g
       < US_PER_SECOND * (_uptime_seconds now1 g + 1))
  /\ ((now1 - STARTED_AT g) / US_PER_SECOND <= _uptime_seconds now1 g
        <= (now1 - STARTED_AT g) / US_PER_SECOND + 1)
  /\ 0 <= _uptime_seconds now1 g
  /\ _uptime_seconds now1 g <= _uptime_seconds now2 g
  /\ _uptime_seconds (STARTED_AT g + 5 * US_PER_SECOND) g = 5.
Proof.
  intros R0 R1 R2 H1 H2.
  pose proof (in_range_apart _ _ R0 R1) as A1.
  pose proof (in_range_apart _ _ R0 R2) as A2.
  unfold _uptime_seconds, int_total_seconds, EXACT_US, US_PER_SECOND.
  destruct (Z.leb_spec 0 (now1 - STARTED_AT g)) as [_ |]; [| lia].
  destruct (Z.leb_spec 0 (now2 - STARTED_AT g)) as [_ |]; [| lia].
  pose proof (int_true_div_bounds (now1 - STARTED_AT g) ltac:(lia) A1) as B.
  assert (Hq : 0 <= (now1 - STARTED_AT g) / 1000000) by (apply Z.div_pos; lia).
  split; [| split; [exact B | split; [lia | split]]].
  - intros Hx. rewrite int_true_div_exact by lia.
    pose proof (Z.mul_div_le (now1 - STARTED_AT g) 1000000).
    pose proof (Z.mul_succ_div_gt (now1 - STARTED_AT g) 1000000). lia.
  - apply int_true_div_mono; [lia | exact A2].
  - replace (STARTED_AT g + 5 * 1000000 - STARTED_AT g) with 5000000 by lia.
    reflexivity.
Qed.

Lemma C8_witness :
  (12500000 - STARTED_AT (initial 10000000) < EXACT_US ->
     US_PER_SECOND * _uptime_seconds 12500000 (initial 10000000)
       <= 12500000 - STARTED_AT (initial 10000000)
       < US_PER_SECOND * (_uptime_seconds 12500000 (initial 10000000) + 1))
  /\ ((12500000 - STARTED_AT (initial 10000000)) / US_PER_SECOND
        <= _uptime_seconds 12500000 (initial 10000000)
        <= (12500000 - STARTED_AT (initial 10000000)) / US_PER_SECOND + 1)
  /\ 0 <= _uptime_seconds 12500000 (initial 10000000)
  /\ _uptime_seconds 12500000 (initial 10000000)
     <= _uptime_seconds 13999999 (initial 10000000)
  /\ _uptime_seconds (STARTED_AT (initial 10000000) + 5 * US_PER_SECOND)
       (initial 10000000) = 5.
Proof.
  apply (C8_uptime_whole_seconds (initial 10000000) 12500000 13999999);
    try reflexivity; cbn; lia.
Defined.

(** The process starts at 1970-01-01T00:00:00Z and the clock reads
    2514-05-30T01:53:04.999999Z: the float nearest to
    17179869184.999999 is 17179869185.0, so the uptime is one more than
    the whole seconds elapsed. *)
Lemma C8_counterexample :
  in_range (STARTED_AT (initial 0)) = true
  /\ in_range 17179869184999999 = true
  /\ STARTED_AT (initial 0) <= 17179869184999999
  /\ _uptime_seconds 17179869184999999 (initial 0) = 17179869185
  /\ ~ (US_PER_SECOND * _uptime_seconds 17179869184999999 (initial 0)
          <= 17179869184999999 - STARTED_AT (initial 0)
          < US_PER_SECOND * (_uptime_seconds 17179869184999999 (initial 0) + 1)).
Proof.
  split; [reflexivity |]. split; [reflexivity |]. split; [cbn; lia |].
  assert (E : _uptime_seconds 17179869184999999 (initial 0) = 17179869185)
    by (vm_compute; reflexivity).
  split; [exact E |]. rewrite E. unfold US_PER_SECOND. cbn. lia.
Qed.

Lemma step_alone (p : Process) (e : Env) (g g' : Globals) (t t' : Thread) :
  thread_step p e g t = Some (g', t') ->
  step (alone p g t) (0%nat, e) = alone p g' t'.
Proof. intros Hs. unfold step, alone. cbn. now rewrite Hs. Qed.

Lemma step_alone_stuck (p : Process) (e : Env) (g : Globals) (t : Thread) :
  thread_step p e g t = None -> step (alone p g t) (0%nat, e) = alone p g t.
Proof. intros Hs. unfold step, alone. cbn. now rewrite Hs. Qed.

(** A request to [/api/status] served without interruption: the hook and
    the view function amount to [_count_requests] followed by
    [api_status]. The fourth step takes the time of the hit, the last one
    the time of the uptime. *)
Lemma status_alone (p : Process) (g : Globals) (r : Request)
    (e1 e2 e3 e4 e5 e6 e7 e8 e9 e10 e11 : Env) :
  _LOCK g = false -> route r = ApiStatus ->
  run (solo 0 [e1; e2; e3; e4; e5; e6; e7; e8; e9; e10; e11]) (alone p g (start r))
  = alone p (_count_requests (now e4) g)
      {| request := r; pc := Done;
         out := [JsonResponse
                   (api_status p r (now e11) (_count_requests (now e4) g))] |}.
Proof.
  intros Hl Hr. destruct g as [st lk total last]. cbn in Hl. subst lk.
  cbn [solo map run fold_left].
  do 5 (erewrite step_alone; [| reflexivity]).
  erewrite step_alone; [| unfold thread_step; cbn [pc goto request start]; rewrite Hr; reflexivity].
  do 5 (erewrite step_alone; [| reflexivity]).
  reflexivity.
Qed.

(** C9. A response of [/api/status] never reports [total_requests = 0]
    and never reports [last_hit_utc = null]: in every reachable
    configuration, every JSON response that a thread has written carries
    a count of at least 1 and a timestamp string, because the hook has
    counted and stamped the request itself before the view function
    read the counters. *)
Theorem C9_status_counts_itself (p : Process) (started : datetime)
    (rs : list Request) (s : Schedule) (i : nat) (t : Thread) (d : Json.dict) :
  pool (run s (boot p started rs)) !! i = Some t ->
  In (JsonResponse d) (out t) ->
  (exists n : Z, Json.get "total_requests" d = Some (Json.Int n) /\ 1 <= n)
  /\ (exists l : datetime,
        Json.get "last_hit_utc" d = Some (Json.Str (isoformat l)))
  /\ Json.get "total_requests" d <> Some (Json.Int 0)
  /\ Json.get "last_hit_utc" d <> Some Json.Null.
Proof.
  intros Hi Hd.
  destruct (lookup_thread_ok started _ i t (reachable_inv p started rs s) Hi)
    as [_ [_ Hout]].
  rewrite Forall_forall in Hout. apply list_elem_of_In in Hd.
  destruct (Hout _ Hd) as [[n [Hn Hn1]] [[l Hl] _]].
  split; [eauto |]. split; [eauto |]. split.
  - rewrite Hn. intros H. inversion H. lia.
  - rewrite Hl. discriminate.
Qed.

Lemma C9_witness :
  exists d : Json.dict,
    pool (run demo_status_run
            (boot demo_process 10 [demo_request ApiStatus; demo_request Events]))
      !! 0%nat
    = Some {| request := demo_request ApiStatus; pc := Done; out := [JsonResponse d] |}
    /\ Json.get "total_requests" d = Some (Json.Int 2)
    /\ Json.get "last_hit_utc" d <> Some Json.Null.
Proof.
  eexists. split; [reflexivity |]. split; [reflexivity |].
  eapply (C9_status_counts_itself demo_process 10
            [demo_request ApiStatus; demo_request Events] demo_status_run 0).
  - reflexivity.
  - left. reflexivity.
Defined.

(** A thread that has been counted never counts again. *)
Lemma counted_step (p : Process) (e : Env) (g g' : Globals) (t t' : Thread) :
  counted t = true -> thread_step p e g t = Some (g', t') ->
  counted t' = true /\ _TOTAL_REQUESTS g' = _TOTAL_REQUESTS g.
Proof.
  unfold thread_step, counted. intros Hc Hs.
  destruct (pc t);
    repeat match type of Hs with
    | context [if _LOCK ?x then _ else _] => destruct (_LOCK x)
    | context [route ?x] => destruct (route x)
    | context [write_ok ?x] => destruct (write_ok x)
    end;
    try discriminate; inversion Hs; subst; split; reflexivity.
Qed.

Lemma counted_alone (p : Process) (es : list Env) (g : Globals) (t : Thread) :
  counted t = true ->
  _TOTAL_REQUESTS (globals (run (solo 0 es) (alone p g t))) = _TOTAL_REQUESTS g.
Proof.
  revert g t. induction es as [| e es IH]; intros g t Hc; [reflexivity |].
  cbn [solo map run fold_left]. fold (solo 0 es). fold (run (solo 0 es)).
  destruct (thread_step p e g t) as [[g' t'] |] eqn:Hs.
  - rewrite (step_alone p e g g' t t' Hs).
    destruct (counted_step p e g g' t t' Hc Hs) as [Hc' <-]. now apply IH.
  - rewrite (step_alone_stuck p e g t Hs). now apply IH.
Qed.

(** The steps of the sampling loop leave the module state as it is, up
    to the lock that they take and release, and stay in the loop until
    the stream is closed. *)
Lemma gen_step_frame (p : Process) (e : Env) (g g' : Globals) (t t' : Thread) :
  in_gen t = true -> thread_step p e g t = Some (g', t') ->
  _TOTAL_REQUESTS g' = _TOTAL_REQUESTS g
  /\ _LAST_HIT_UTC g' = _LAST_HIT_UTC g
  /\ STARTED_AT g' = STARTED_AT g
  /\ (in_gen t' = true \/ pc t' = Done).
Proof.
  unfold thread_step, in_gen. intros Hc Hs.
  destruct (pc t); try discriminate;
    repeat match type of Hs with
    | context [if _LOCK ?x then _ else _] => destruct (_LOCK x)
    | context [write_ok ?x] => destruct (write_ok x)
    end;
    try discriminate; inversion Hs; subst; cbn; auto.
Qed.

(** C10. A request of any route, [/events] and [/healthz] included, that
    is served from a state in which the lock is free raises
    [_TOTAL_REQUESTS] by exactly one, however many steps it runs after
    the write of the hook: the streaming loop that follows the opening of
    [/events] adds nothing. In any configuration, a step of a thread
    that is in the loop of [gen] changes neither [_TOTAL_REQUESTS] nor
    [_LAST_HIT_UTC]. *)
Theorem C10_stream_counts_once (p : Process) (g : Globals) (r : Request)
    (es : list Env) (c : Config) (i : nat) (e : Env) (t : Thread) :
  (_LOCK g = false -> (3 <= length es)%nat ->
     _TOTAL_REQUESTS (globals (run (solo 0 es) (alone p g (start r))))
     = _TOTAL_REQUESTS g + 1)
  /\ (pool c !! i = Some t -> in_gen t = true ->
        _TOTAL_REQUESTS (globals (step c (i, e))) = _TOTAL_REQUESTS (globals c)
        /\ _LAST_HIT_UTC (globals (step c (i, e))) = _LAST_HIT_UTC (globals c)).
Proof.
  split.
  - intros Hl Hn. destruct es as [| e1 [| e2 [| e3 es]]]; cbn in Hn; try lia.
    destruct g as [st lk total last]. cbn in Hl. subst lk.
    cbn [solo map run fold_left]. fold (solo 0 es). fold (run (solo 0 es)).
    do 3 (erewrite step_alone; [| reflexivity]).
    rewrite counted_alone; reflexivity.
  - intros Hi Hg.
    destruct (thread_step (process c) e (globals c) t) as [[g' t'] |] eqn:Hs.
    + destruct (step_split c i e t t' g' Hi Hs) as [_ ->]. cbn [globals].
      destruct (gen_step_frame _ _ _ _ _ _ Hg Hs) as [H1 [H2 _]]. now split.
    + rewrite step_stuck by (intros; congruence). now split.
Qed.

Lemma C10_witness :
  _TOTAL_REQUESTS (globals
     (run (solo 0 (repeat (tick 30) 40))
          (alone demo_process (initial 10) (start (demo_request Events)))))
  = _TOTAL_REQUESTS (initial 10) + 1.
Proof.
  apply (proj1 (C10_stream_counts_once demo_process (initial 10)
                  (demo_request Events) (repeat (tick 30) 40)
                  (alone demo_process (initial 10) (start (demo_request Events)))
                  0 (tick 30) (start (demo_request Events)))).
  - reflexivity.
  - cbn. lia.
Defined.

(** One pass of the loop of [gen], run without interruption from the
    top of the [while True], is the [iteration] of the generator
    object. *)
Lemma gen_loop_iteration (p : Process) (g : Globals) (r : Request)
    (o : list Output) (e1 e2 e3 e4 e5 e6 : Env) :
  _LOCK g = false ->
  run (solo 0 [e1; e2; e3; e4; e5; e6])
      (alone p g {| request := r; pc := GenAcquire; out := o |})
  = alone p g {| request := r;
                 pc := GenYield (Generator.iteration g (now e5) (now e6));
                 out := o |}.
Proof.
  intros Hl. destruct g as [st lk total last]. cbn in Hl. subst lk.
  cbn [solo map run fold_left].
  do 6 (erewrite step_alone; [| reflexivity]). reflexivity.
Qed.

(** The loop of [gen] as the code has it does not test the outcome of an
    emit: whatever value is sent into the suspended generator, it
    produces the next item. *)
Lemma C2_counterexample :
  Generator.resume (Generator.Send (Json.Bool false)) (initial 10) 20 30
    Generator.Suspended
  = (Generator.Suspended, Generator.Yielded (Generator.iteration (initial 10) 20 30))
  /\ ~ Generator.exits_on_checked_result.
Proof.
  split; [reflexivity |]. intros [v [g [n1 [n2 H]]]]. discriminate.
Qed.

(** C2, as amended. The loop of [gen] has no exit of its own: resumed by
    [next] or by [send] with any value it yields another item. It ends
    when the server closes the generator, by the [GeneratorExit] raised
    at the [yield], which the body does not catch; [close] then returns
    without error, and a finished generator yields nothing more. In the
    server, a failed write of an item ends the thread in that very step,
    with the module state unchanged and the lock not held, and the
    thread never moves again, so nothing is written after the failure. *)
Theorem C2_stream_ends_on_failed_write (p : Process) (g : Globals)
    (n1 n2 : datetime) (v : Json.value) (r : Generator.Resume)
    (e e' : Env) (t : Thread) (item : string) :
  Generator.resume Generator.Next g n1 n2 Generator.Suspended
    = (Generator.Suspended, Generator.Yielded (Generator.iteration g n1 n2))
  /\ Generator.resume (Generator.Send v) g n1 n2 Generator.Suspended
    = (Generator.Suspended, Generator.Yielded (Generator.iteration g n1 n2))
  /\ Generator.resume Generator.Close g n1 n2 Generator.Suspended
    = (Generator.Finished, Generator.Unwound Generator.GeneratorExit)
  /\ (forall m : string,
        snd (Generator.resume r g n1 n2 Generator.Finished) <> Generator.Yielded m)
  /\ (pc t = GenYield item -> write_ok e = false ->
      exists t' : Thread,
        thread_step p e g t = Some (g, t')
        /\ pc t' = Done
        /\ holds_lock t' = false
        /\ out t' = (out t ++ [WriteFailed item])%list
        /\ thread_step p e' g t' = None).
Proof.
  split; [reflexivity |]. split; [reflexivity |]. split; [reflexivity |]. split.
  - intros m. destruct r; discriminate.
  - intros Hpc Hw. unfold thread_step. rewrite Hpc, Hw.
    eexists. split; [reflexivity |]. repeat split.
Qed.

Lemma C2_witness :
  exists t' : Thread,
    thread_step demo_process {| now := 40; write_ok := false |} (initial 10)
      {| request := demo_request Events; pc := GenYield "data: {}";
         out := [StreamOpened] |} = Some (initial 10, t')
    /\ pc t' = Done
    /\ holds_lock t' = false
    /\ out t' = [StreamOpened; WriteFailed "data: {}"]
    /\ thread_step demo_process (tick 41) (initial 10) t' = None.
Proof.
  apply (proj2 (proj2 (proj2 (proj2
    (C2_stream_ends_on_failed_write demo_process (initial 10) 0 0 Json.Null
       Generator.Next {| now := 40; write_ok := false |} (tick 41)
       {| request := demo_request Events; pc := GenYield "data: {}";
          out := [StreamOpened] |} "data: {}"))))); reflexivity.
Defined.



(** C4. The dictionary of the response of [/api/status] has the fields
    [uptime_seconds] and [total_requests], both integers, and
    [last_hit_utc], which is the ISO 8601 text of the last hit, or null
    when no hit has been recorded; the first two are the uptime at the
    time of the call and the counter. The same holds of every JSON
    response that a thread of the server has written. *)
Theorem C4_status_fields (p : Process) (r : Request) (now : datetime) (g : Globals)
    (started : datetime) (rs : list Request) (s : Schedule) (i : nat)
    (t : Thread) (d : Json.dict) :
  (Shape.has_status_fields (api_status p r now g) = true
   /\ Json.get "uptime_seconds" (api_status p r now g)
      = Some (Json.Int (_uptime_seconds now g))
   /\ Json.get "total_requests" (api_status p r now g)
      = Some (Json.Int (_TOTAL_REQUESTS g))
   /\ Json.get "last_hit_utc" (api_status p r now g)
      = Some (match _LAST_HIT_UTC g with
              | Some l => Json.Str (isoformat l)
              | None => Json.Null
              end))
  /\ (pool (run s (boot p started rs)) !! i = Some t ->
      In (JsonResponse d) (out t) -> Shape.has_status_fields d = true).
Proof.
  split.
  - split; [apply (api_status_body_fields p r g _ (_LAST_HIT_UTC g) now) |].
    split; [reflexivity |]. split; [reflexivity |].
    unfold api_status, snapshot. cbn [snd Json.get String.eqb Ascii.eqb Bool.eqb].
    destruct (_LAST_HIT_UTC g); reflexivity.
  - intros Hi Hd.
    destruct (lookup_thread_ok started _ i t (reachable_inv p started rs s) Hi)
      as [_ [_ Hout]].
    rewrite Forall_forall in Hout. apply list_elem_of_In in Hd.
    apply (Hout _ Hd).
Qed.

Lemma C4_witness :
  Json.get "uptime_seconds" demo_status_body = Some (Json.Int 5)
  /\ Shape.has_status_fields demo_status_body = true.
Proof.
  split; [reflexivity |].
  apply (proj2 (C4_status_fields demo_process (demo_request ApiStatus) 0 (initial 10)
                  10 [demo_request ApiStatus; demo_request Events]
                  demo_status_run 0
                  {| request := demo_request ApiStatus; pc := Done;
                     out := [JsonResponse demo_status_body] |} demo_status_body)).
  - vm_compute. reflexivity.
  - left. reflexivity.
Defined.

Lemma era_days_ok : all_from (Z.to_nat 146097) 0 era_day_ok = true.
Proof. vm_compute. reflexivity. Qed.

Lemma era_day_bounds (d : Z) :
  0 <= d < 146097 -> era_day_ok d = true.
Proof.
  intros H. apply (all_from_spec _ _ _ era_days_ok). lia.
Qed.

(** The fields of a [datetime] within the range of the type are within
    the bounds for which [zero_padded] prints what ["%0wd"] prints. *)
Lemma fields_in_bounds (t : datetime) :
  in_range t = true ->
  1 <= year t <= 9999 /\ 1 <= month t <= 12 /\ 1 <= day t <= 31
  /\ 0 <= hour t <= 23 /\ 0 <= minute t <= 59 /\ 0 <= second t <= 59
  /\ 0 <= microsecond t <= 999999.
Proof.
  unfold in_range, MIN_US, MAX_US. intros H.
  apply andb_true_iff in H as [H1 H2]. apply Z.leb_le in H1, H2.
  unfold year, month, day, hour, minute, second, microsecond, civil_of_days,
    US_PER_DAY, US_PER_SECOND.
  change (86400 * 1000000) with 86400000000.
  change (3600 * 1000000) with 3600000000.
  change (60 * 1000000) with 60000000.
  set (n := t / 86400000000).
  assert (Hn : -719162 <= n <= 2932896).
  { unfold n. split.
    - apply Z.div_le_lower_bound; lia.
    - apply Z.lt_succ_r, Z.div_lt_upper_bound; lia. }
  set (sh := n + 719468).
  assert (Hsh : 306 <= sh <= 3652364) by (unfold sh; lia).
  pose proof (Z.mod_pos_bound sh 146097 ltac:(lia)) as Hm.
  pose proof (Z.div_mod sh 146097 ltac:(lia)) as Hdm.
  assert (He : 0 <= sh / 146097 <= 24).
  { split; [apply Z.div_pos; lia | apply Z.lt_succ_r, Z.div_lt_upper_bound; lia]. }
  pose proof (era_day_bounds (sh mod 146097) Hm) as Hok.
  unfold era_day_ok in Hok.
  destruct (civil_of_era_day (sh mod 146097)) as [[y m] dd]. cbn [fst snd].
  repeat (apply andb_true_iff in Hok as [Hok ?]).
  repeat match goal with
  | H : (_ <=? _) = true |- _ => apply Z.leb_le in H
  | H : (_ || _) = true |- _ => apply orb_true_iff in H
  end.
  repeat match goal with
  | H : (_ <? _) = true \/ _ |- _ => rewrite Z.ltb_lt in H
  | H : _ \/ (_ <=? _) = true |- _ => rewrite Z.leb_le in H
  end.
  split; [lia |]. split; [lia |]. split; [lia |].
  pose proof (Z.mod_pos_bound t 86400000000 ltac:(lia)).
  pose proof (Z.mod_pos_bound t 3600000000 ltac:(lia)).
  pose proof (Z.mod_pos_bound t 60000000 ltac:(lia)).
  pose proof (Z.mod_pos_bound t 1000000 ltac:(lia)).
  repeat split; try lia; try (apply Z.div_pos; lia);
    apply Z.lt_succ_r, Z.div_lt_upper_bound; lia.
Qed.

Lemma decimal_value_app (acc : Z) (a b : string) :
  decimal_value acc (a ++ b) = decimal_value (decimal_value acc a) b.
Proof.
  revert acc. induction a as [| c a IH]; intros acc; [reflexivity |].
  cbn [append decimal_value]. apply IH.
Qed.

Lemma digit_value (n : Z) :
  0 <= n < 10 -> Z.of_nat (nat_of_ascii (digit n)) - 48 = n.
Proof.
  intros H. apply Z.eqb_eq.
  apply (all_from_spec 10 0 (fun k => Z.of_nat (nat_of_ascii (digit k)) - 48 =? k)
           eq_refl).
  cbn. lia.
Qed.

(** [zero_padded w n] is a decimal numeral of [n] when [n] has at most
    [w] digits. *)
Lemma decimal_value_zero_padded (w : nat) (n : Z) :
  0 <= n < 10 ^ Z.of_nat w -> decimal_value 0 (zero_padded w n) = n.
Proof.
  revert n. induction w as [| w IH]; intros n Hn.
  - cbn in *. lia.
  - cbn [zero_padded]. rewrite decimal_value_app, IH.
    + cbn [decimal_value]. rewrite digit_value by (apply Z.mod_pos_bound; lia).
      pose proof (Z.div_mod n 10 ltac:(lia)). lia.
    + rewrite Nat2Z.inj_succ, Z.pow_succ_r in Hn by lia.
      split; [apply Z.div_pos; lia | apply Z.div_lt_upper_bound; lia].
Qed.

(* ===================================================================== *)
(** * Further properties of the code *)
(* ===================================================================== *)

(** ** The [after_request] hook [_headers] *)

Section HeaderLemmas.
#[local] Open Scope string_scope.
Import Headers.

Lemma same_key_refl (k : string) : same_key k k = true.
Proof. apply String.eqb_refl. Qed.

Lemma same_key_sym (a b : string) : same_key a b = same_key b a.
Proof. apply String.eqb_sym. Qed.

Lemma same_key_trans (a b c : string) :
  same_key a b = true -> same_key b c = true -> same_key a c = true.
Proof.
  unfold same_key. rewrite !String.eqb_eq. congruence.
Qed.

(** Names that are the same as [k] are told apart from [k'] exactly when
    [k] is. *)
Lemma same_key_other (a k k' : string) :
  same_key a k = true -> same_key k k' = false -> same_key a k' = false.
Proof.
  intros H1 H2. destruct (same_key a k') eqn:E; [| reflexivity].
  rewrite same_key_sym in H1.
  now rewrite (same_key_trans k a k' H1 E) in H2.
Qed.

Lemma get_remove_other (k k' : string) (h : t) :
  same_key k k' = false -> get k' (remove k h) = get k' h.
Proof.
  intros Hk. induction h as [| [a v] h IH]; [reflexivity |].
  cbn [remove get]. destruct (same_key a k) eqn:Ea.
  - rewrite (same_key_other a k k' Ea Hk). exact IH.
  - cbn [get]. now rewrite IH.
Qed.

Lemma get_set_same (k v : string) (h : t) : get k (set k v h) = Some v.
Proof.
  induction h as [| [a w] h IH]; cbn [set get].
  - now rewrite same_key_refl.
  - destruct (same_key a k) eqn:Ea; cbn [get].
    + now rewrite same_key_refl.
    + now rewrite Ea.
Qed.

Lemma get_set_other (k v k' : string) (h : t) :
  same_key k k' = false -> get k' (set k v h) = get k' h.
Proof.
  intros Hk. induction h as [| [a w] h IH]; cbn [set get].
  - now rewrite Hk.
  - destruct (same_key a k) eqn:Ea; cbn [get].
    + rewrite Hk, (same_key_other a k k' Ea Hk). now apply get_remove_other.
    + now rewrite IH.
Qed.

Lemma count_remove_same (k : string) (h : t) : count k (remove k h) = O.
Proof.
  induction h as [| [a v] h IH]; [reflexivity |].
  cbn [remove]. destruct (same_key a k) eqn:Ea; [exact IH |].
  cbn [count]. now rewrite Ea, IH.
Qed.

Lemma count_remove_other (k k' : string) (h : t) :
  same_key k k' = false -> count k' (remove k h) = count k' h.
Proof.
  intros Hk. induction h as [| [a v] h IH]; [reflexivity |].
  cbn [remove count]. destruct (same_key a k) eqn:Ea.
  - now rewrite (same_key_other a k k' Ea Hk), IH.
  - cbn [count]. now rewrite IH.
Qed.

Lemma count_set_same (k v : string) (h : t) : count k (set k v h) = 1%nat.
Proof.
  induction h as [| [a w] h IH]; cbn [set count].
  - now rewrite same_key_refl.
  - destruct (same_key a k) eqn:Ea; cbn [count].
    + now rewrite same_key_refl, count_remove_same.
    + now rewrite Ea, IH.
Qed.

Lemma count_set_other (k v k' : string) (h : t) :
  same_key k k' = false -> count k' (set k v h) = count k' h.
Proof.
  intros Hk. induction h as [| [a w] h IH]; cbn [set count].
  - now rewrite Hk.
  - destruct (same_key a k) eqn:Ea; cbn [count].
    + now rewrite Hk, (same_key_other a k k' Ea Hk), count_remove_other.
    + now rewrite IH.
Qed.

Lemma remove_absent (k : string) (h : t) : count k h = O -> remove k h = h.
Proof.
  induction h as [| [a v] h IH]; [reflexivity |].
  cbn [count remove]. destruct (same_key a k); [discriminate |].
  intros H. now rewrite IH.
Qed.

Lemma count_zero_not_in (k a v : string) (h : t) :
  count k h = O -> same_key a k = true -> ~ In (a, v) h.
Proof.
  intros H0 Ha. induction h as [| [b u] h IH]; [intros [] |].
  cbn [count] in H0. intros [Heq | Hin].
  - inversion Heq; subst. rewrite Ha in H0. discriminate.
  - destruct (same_key b k); [discriminate | now apply IH].
Qed.

(** Where a name has one entry, two entries under that name are the
    same. *)
Lemma single_entry (k a v b w : string) (h : t) :
  count k h = 1%nat -> same_key a k = true -> same_key b k = true ->
  In (a, v) h -> In (b, w) h -> (a, v) = (b, w).
Proof.
  intros Hc Ha Hb. induction h as [| [c u] h IH]; [intros [] |].
  cbn [count] in Hc. destruct (same_key c k) eqn:Ec.
  - assert (H0 : count k h = O) by lia.
    intros [E1 | I1] [E2 | I2].
    + congruence.
    + destruct (count_zero_not_in k b w h H0 Hb I2).
    + destruct (count_zero_not_in k a v h H0 Ha I1).
    + destruct (count_zero_not_in k a v h H0 Ha I1).
  - intros [E1 | I1] [E2 | I2].
    + inversion E1; subst. congruence.
    + inversion E1; subst. congruence.
    + inversion E2; subst. congruence.
    + now apply IH.
Qed.

(** An entry [(k, v)] that is the only one named [k] is left as it is by
    [headers[k] = v]. *)
Lemma set_settled (k v : string) (h : t) :
  count k h = 1%nat -> In (k, v) h -> set k v h = h.
Proof.
  induction h as [| [a w] h IH]; [intros _ [] |].
  cbn [count set]. destruct (same_key a k) eqn:Ea.
  - intros Hc Hin. assert (H0 : count k h = O) by lia.
    rewrite (remove_absent k h H0). destruct Hin as [Heq | Hin].
    + now inversion Heq.
    + destruct (count_zero_not_in k k v h H0 (same_key_refl k) Hin).
  - intros Hc Hin. destruct Hin as [Heq | Hin].
    + inversion Heq; subst. now rewrite same_key_refl in Ea.
    + now rewrite IH.
Qed.

Lemma in_remove_other (k k' v : string) (h : t) :
  same_key k k' = false -> In (k', v) h -> In (k', v) (remove k h).
Proof.
  intros Hk. induction h as [| [a w] h IH]; [intros [] |].
  cbn [remove]. intros [Heq | Hin].
  - inversion Heq; subst. rewrite same_key_sym, Hk. now left.
  - destruct (same_key a k); [now apply IH | right; now apply IH].
Qed.

Lemma in_set_same (k v : string) (h : t) : In (k, v) (set k v h).
Proof.
  induction h as [| [a w] h IH]; cbn [set]; [now left |].
  destruct (same_key a k); [now left | right; exact IH].
Qed.

Lemma in_set_other (k v k' v' : string) (h : t) :
  same_key k k' = false -> In (k', v') h -> In (k', v') (set k v h).
Proof.
  intros Hk. induction h as [| [a w] h IH]; [intros [] |].
  cbn [set]. intros [Heq | Hin].
  - inversion Heq; subst. rewrite same_key_sym, Hk. now left.
  - destruct (same_key a k).
    + right. now apply in_remove_other.
    + right. now apply IH.
Qed.

End HeaderLemmas.

Section HeaderTheorems.
#[local] Open Scope string_scope.
Import Headers.

(** Whatever headers the response carried, in whatever case, after
    [_headers] each of the four names has exactly one entry, with the
    value that the hook assigns. *)
Theorem headers_defaults_set (h : Headers.t) :
  (get "X-Content-Type-Options" (_headers h) = Some "nosniff"
   /\ get "Referrer-Policy" (_headers h) = Some "no-referrer"
   /\ get "X-Frame-Options" (_headers h) = Some "SAMEORIGIN"
   /\ get "Cache-Control" (_headers h) = Some "no-store")
  /\ Forall (fun k => count k (_headers h) = 1%nat) default_header_names.
Proof.
  unfold _headers, default_header_names. split.
  - repeat split;
      repeat first [ apply get_set_same
                   | rewrite get_set_other by reflexivity ].
  - repeat constructor;
      repeat first [ apply count_set_same
                   | rewrite count_set_other by reflexivity ].
Qed.

(** [_headers] touches no other header: a name that is none of the four
    keeps its value and its number of entries. *)
Theorem headers_others_kept (h : Headers.t) (k : string) :
  not_a_default k = true ->
  get k (_headers h) = get k h /\ count k (_headers h) = count k h.
Proof.
  unfold not_a_default, default_header_names. cbn [forallb].
  rewrite !andb_true_iff, !negb_true_iff. intros [H1 [H2 [H3 [H4 _]]]].
  unfold _headers. split.
  - now rewrite !get_set_other.
  - now rewrite !count_set_other.
Qed.

Lemma headers_others_kept_witness :
  get "Connection" (_headers events_headers) = get "Connection" events_headers
  /\ count "Connection" (_headers events_headers)
     = count "Connection" events_headers.
Proof.
  apply (headers_others_kept events_headers "Connection"). reflexivity.
Defined.

(** Running the hook a second time changes nothing. *)
Theorem headers_idempotent (h : Headers.t) : _headers (_headers h) = _headers h.
Proof.
  unfold _headers at 1.
  set (r := _headers h).
  assert (Hc : forall k, In k default_header_names -> count k r = 1%nat).
  { intros k Hk. pose proof (proj2 (headers_defaults_set h)) as H.
    rewrite Forall_forall in H. apply H. now apply list_elem_of_In. }
  assert (H1 : In ("X-Content-Type-Options", "nosniff") r).
  { unfold r, _headers.
    do 3 (apply in_set_other; [reflexivity |]). apply in_set_same. }
  assert (H2 : In ("Referrer-Policy", "no-referrer") r).
  { unfold r, _headers.
    do 2 (apply in_set_other; [reflexivity |]). apply in_set_same. }
  assert (H3 : In ("X-Frame-Options", "SAMEORIGIN") r).
  { unfold r, _headers. apply in_set_other; [reflexivity |]. apply in_set_same. }
  assert (H4 : In ("Cache-Control", "no-store") r).
  { unfold r, _headers. apply in_set_same. }
  rewrite (set_settled _ _ r) by (try apply Hc; cbn; tauto).
  rewrite (set_settled _ _ r) by (try apply Hc; cbn; tauto).
  rewrite (set_settled _ _ r) by (try apply Hc; cbn; tauto).
  apply set_settled; [apply Hc; cbn; tauto | exact H4].
Qed.

(** The stream of [/events] is sent with [Cache-Control: no-store]: the
    hook replaces the [no-cache] that the view function asked for, and
    leaves [Connection] and [X-Accel-Buffering] as they were, whatever
    further headers [more] the framework has added. *)
Theorem events_cache_control_replaced (more : Headers.t) :
  get "Cache-Control" (events_headers ++ more)%list = Some "no-cache"
  /\ get "Cache-Control" (_headers (events_headers ++ more)%list) = Some "no-store"
  /\ ~ In ("Cache-Control", "no-cache") (_headers (events_headers ++ more)%list)
  /\ get "Connection" (_headers (events_headers ++ more)%list) = Some "keep-alive"
  /\ get "X-Accel-Buffering" (_headers (events_headers ++ more)%list) = Some "no".
Proof.
  split; [reflexivity |]. split; [apply headers_defaults_set |]. split.
  - intros Hin.
    pose proof (proj2 (headers_defaults_set (events_headers ++ more)%list)) as H.
    rewrite Forall_forall in H.
    assert (Hc : count "Cache-Control" (_headers (events_headers ++ more)%list) = 1%nat).
    { apply H. apply list_elem_of_In. cbn. tauto. }
    assert (Hs : In ("Cache-Control", "no-store") (_headers (events_headers ++ more)%list))
      by apply in_set_same.
    pose proof (single_entry "Cache-Control" "Cache-Control" "no-cache"
                  "Cache-Control" "no-store" _ Hc eq_refl eq_refl Hin Hs) as Heq.
    discriminate.
  - unfold _headers. split; now rewrite !get_set_other.
Qed.

End HeaderTheorems.

(** ** Mutual exclusion, progress and bounds of the thread machine *)

Lemma count_if_le_length (f : Thread -> bool) (l : list Thread) :
  count_if f l <= Z.of_nat (length l).
Proof.
  induction l as [| t l IH]; cbn [count_if length]; [lia |].
  destruct (f t); lia.
Qed.

Lemma count_if_lookup (f : Thread -> bool) (l : list Thread) (i : nat) (t : Thread) :
  l !! i = Some t ->
  count_if f l
  = count_if f (take i l) + (if f t then 1 else 0) + count_if f (drop (S i) l).
Proof.
  intros Hi. rewrite <- (take_drop_middle l i t Hi) at 1.
  rewrite count_if_app. cbn [count_if]. lia.
Qed.

Lemma count_if_pos (f : Thread -> bool) (l : list Thread) (i : nat) (t : Thread) :
  l !! i = Some t -> f t = true -> 1 <= count_if f l.
Proof.
  intros Hi Hf. rewrite (count_if_lookup f l i t Hi), Hf.
  pose proof (count_if_nonneg f (take i l)).
  pose proof (count_if_nonneg f (drop (S i) l)). lia.
Qed.

Lemma count_if_found (f : Thread -> bool) (l : list Thread) :
  1 <= count_if f l -> exists (i : nat) (t : Thread), l !! i = Some t /\ f t = true.
Proof.
  induction l as [| t l IH]; cbn [count_if]; [lia |].
  destruct (f t) eqn:Ef.
  - intros _. exists 0%nat, t. split; [reflexivity | exact Ef].
  - intros H. destruct IH as [i [u [Hi Hu]]]; [lia |].
    exists (S i), u. split; [exact Hi | exact Hu].
Qed.

(** At most one thread is inside a [with _LOCK:] block, and [_LOCK] is
    held exactly when one is. *)
Theorem mutual_exclusion (p : Process) (started : datetime) (rs : list Request)
    (s : Schedule) (i j : nat) (ti tj : Thread) :
  pool (run s (boot p started rs)) !! i = Some ti ->
  pool (run s (boot p started rs)) !! j = Some tj ->
  holds_lock ti = true -> holds_lock tj = true ->
  i = j /\ _LOCK (globals (run s (boot p started rs))) = true.
Proof.
  set (c := run s (boot p started rs)). intros Hi Hj Hti Htj.
  pose proof (inv_lock _ _ (reachable_inv p started rs s)) as Hl. fold c in Hl.
  pose proof (count_if_lookup holds_lock (pool c) i ti Hi) as Hc.
  rewrite Hti in Hc.
  pose proof (count_if_nonneg holds_lock (take i (pool c))) as N1.
  pose proof (count_if_nonneg holds_lock (drop (S i) (pool c))) as N2.
  split; [| destruct (_LOCK (globals c)); [reflexivity | lia]].
  destruct (Nat.lt_trichotomy j i) as [Hlt | [Heq | Hgt]]; [| exact (eq_sym Heq) |].
  - assert (H : take i (pool c) !! j = Some tj) by (rewrite lookup_take_lt; assumption).
    pose proof (count_if_pos holds_lock _ j tj H Htj).
    destruct (_LOCK (globals c)); lia.
  - assert (H : drop (S i) (pool c) !! (j - S i)%nat = Some tj).
    { rewrite lookup_drop. replace (S i + (j - S i))%nat with j by lia. exact Hj. }
    pose proof (count_if_pos holds_lock _ _ tj H Htj).
    destruct (_LOCK (globals c)); lia.
Qed.

Lemma mutual_exclusion_witness :
  0%nat = 0%nat
  /\ _LOCK (globals (run [(0%nat, tick 11); (1%nat, tick 12)]
              (boot demo_process 10 [demo_request ApiStatus; demo_request Events])))
     = true.
Proof.
  apply (mutual_exclusion demo_process 10
           [demo_request ApiStatus; demo_request Events]
           [(0%nat, tick 11); (1%nat, tick 12)] 0 0
           {| request := demo_request ApiStatus; pc := CountLoad; out := [] |}
           {| request := demo_request ApiStatus; pc := CountLoad; out := [] |});
    reflexivity.
Defined.

(** The lock is never leaked: whenever [_LOCK] is held, some thread is
    inside a [with _LOCK:] block, and it is one that has not finished. *)
Theorem lock_never_leaked (p : Process) (started : datetime) (rs : list Request)
    (s : Schedule) :
  _LOCK (globals (run s (boot p started rs))) = true ->
  exists (i : nat) (t : Thread),
    pool (run s (boot p started rs)) !! i = Some t
    /\ holds_lock t = true /\ pc t <> Done.
Proof.
  intros Hl.
  pose proof (inv_lock _ _ (reachable_inv p started rs s)) as Hc.
  rewrite Hl in Hc.
  destruct (count_if_found holds_lock (pool (run s (boot p started rs))))
    as [i [t [Hi Ht]]]; [lia |].
  exists i, t. split; [exact Hi |]. split; [exact Ht |].
  unfold holds_lock in Ht. destruct (pc t); congruence.
Qed.

Lemma lock_never_leaked_witness :
  exists (i : nat) (t : Thread),
    pool (run [(0%nat, tick 11); (1%nat, tick 12)]
            (boot demo_process 10 [demo_request ApiStatus; demo_request Events]))
      !! i = Some t
    /\ holds_lock t = true /\ pc t <> Done.
Proof.
  apply (lock_never_leaked demo_process 10
           [demo_request ApiStatus; demo_request Events]
           [(0%nat, tick 11); (1%nat, tick 12)]).
  reflexivity.
Defined.

(** A thread inside a [with _LOCK:] block is never blocked, and a thread
    that is not done is blocked only by the lock. *)
Lemma thread_step_enabled (p : Process) (e : Env) (g : Globals) (t : Thread) :
  pc t <> Done -> (holds_lock t = true \/ _LOCK g = false) ->
  thread_step p e g t <> None.
Proof.
  unfold thread_step, holds_lock. intros Hd Hl.
  destruct (pc t); try congruence;
    try (destruct Hl as [Hl | Hl]; [discriminate | rewrite Hl; discriminate]);
    try (destruct (route (request t)); discriminate);
    try (destruct (write_ok e); discriminate).
Qed.

(** The process never deadlocks: in every reachable configuration in
    which some thread is not done, some thread can take a step, whatever
    the clock reads and whether or not writes succeed. *)
Theorem no_deadlock (p : Process) (started : datetime) (rs : list Request)
    (s : Schedule) (e : Env) (j : nat) (tj : Thread) :
  pool (run s (boot p started rs)) !! j = Some tj -> pc tj <> Done ->
  exists (i : nat) (t : Thread),
    pool (run s (boot p started rs)) !! i = Some t
    /\ thread_step p e (globals (run s (boot p started rs))) t <> None.
Proof.
  set (c := run s (boot p started rs)). intros Hj Hd.
  pose proof (inv_lock _ _ (reachable_inv p started rs s)) as Hl. fold c in Hl.
  destruct (_LOCK (globals c)) eqn:El.
  - destruct (count_if_found holds_lock (pool c)) as [i [t [Hi Ht]]]; [lia |].
    exists i, t. split; [exact Hi |]. apply thread_step_enabled; [| now left].
    unfold holds_lock in Ht. destruct (pc t); congruence.
  - exists j, tj. split; [exact Hj |]. apply thread_step_enabled; [exact Hd | now right].
Qed.

Lemma no_deadlock_witness :
  exists (i : nat) (t : Thread),
    pool (run demo_race
            (boot demo_process 10 [demo_request ApiStatus; demo_request Events]))
      !! i = Some t
    /\ thread_step demo_process (tick 30)
         (globals (run demo_race
            (boot demo_process 10 [demo_request ApiStatus; demo_request Events])))
         t <> None.
Proof.
  apply (no_deadlock demo_process 10 [demo_request ApiStatus; demo_request Events]
           demo_race (tick 30) 1
           {| request := demo_request Events; pc := Dispatch; out := [] |}).
  - reflexivity.
  - discriminate.
Defined.

(** The counter never exceeds the number of requests received: no
    request is counted twice. *)
Theorem total_requests_bounded (p : Process) (started : datetime)
    (rs : list Request) (s : Schedule) :
  0 <= _TOTAL_REQUESTS (globals (run s (boot p started rs))) <= Z.of_nat (length rs).
Proof.
  rewrite (inv_total _ _ (reachable_inv p started rs s)).
  split; [apply count_if_nonneg |].
  rewrite <- (boot_length p started rs), <- (run_length s). apply count_if_le_length.
Qed.

Lemma run_last_stays_set (started : datetime) (s : Schedule) (c : Config) :
  Inv started c -> _LAST_HIT_UTC (globals c) <> None ->
  _LAST_HIT_UTC (globals (run s c)) <> None.
Proof.
  revert c. induction s as [| [i e] s IH]; intros c HI Hc; [exact Hc |].
  cbn [run fold_left]. fold (run s (step c (i, e))).
  apply IH; [now apply step_inv |].
  pose proof (step_globals started c i e HI) as H.
  destruct (pool c !! i) as [t |]; [| now rewrite H].
  destruct H as [_ [H | [_ H]]]; rewrite H; [exact Hc | discriminate].
Qed.

(** Once a hit has been recorded, [_LAST_HIT_UTC] is never [None]
    again: no step of any thread resets it. *)
Theorem last_hit_stays_set (p : Process) (started : datetime)
    (rs : list Request) (s s' : Schedule) :
  _LAST_HIT_UTC (globals (run s (boot p started rs))) <> None ->
  _LAST_HIT_UTC (globals (run (s ++ s')%list (boot p started rs))) <> None.
Proof.
  intros H. rewrite run_app.
  apply (run_last_stays_set started); [apply reachable_inv | exact H].
Qed.

Lemma last_hit_stays_set_witness :
  _LAST_HIT_UTC (globals (run (demo_race ++ [(1%nat, tick 40)])%list
     (boot demo_process 10 [demo_request ApiStatus; demo_request Events]))) <> None.
Proof.
  apply (last_hit_stays_set demo_process 10
           [demo_request ApiStatus; demo_request Events] demo_race [(1%nat, tick 40)]).
  discriminate.
Defined.

(** ** What the stream reports *)

Lemma thread_step_items (p : Process) (e : Env) (g g' : Globals) (t t' : Thread) :
  thread_ok g t -> items_counted t ->
  thread_step p e g t = Some (g', t') -> items_counted t'.
Proof.
  intros [[_ Hloc] _] [Hout Hpc] Hs.
  destruct t as [r k o]. unfold thread_step in Hs. unfold items_counted in *.
  cbn [pc request out] in *.
  destruct k;
    repeat match type of Hs with
    | context [if _LOCK ?x then _ else _] => destruct (_LOCK x)
    | context [route ?x] => destruct (route x)
    | context [write_ok ?x] => destruct (write_ok x)
    end;
    try discriminate; inversion Hs; subst g' t'; clear Hs;
    cbn [goto emit pc out request]; split.
  all: try exact I.
  all: try exact Hout.
  all: try (apply Forall_app; split; [exact Hout |];
            constructor; [first [exact I | exact Hpc] | constructor]).
  destruct Hloc as [Ht [l ->]].
  exists (_uptime_seconds uptime_now g), total, l, (now e). split; [exact Ht | reflexivity].
Qed.

Lemma step_items (started : datetime) (c : Config) (ie : nat * Env) :
  Inv started c -> Forall items_counted (pool c) ->
  Forall items_counted (pool (step c ie)).
Proof.
  intros HI Hall. destruct ie as [i e].
  destruct (pool c !! i) as [t |] eqn:Hi.
  - destruct (thread_step (process c) e (globals c) t) as [[g' t'] |] eqn:Hs.
    + destruct (step_split c i e t t' g' Hi Hs) as [Hp ->]. cbn [pool].
      rewrite Hp in Hall. apply Forall_app in Hall as [H1 H2].
      apply Forall_cons in H2 as [Ht H2].
      apply Forall_app. split; [exact H1 |]. constructor; [| exact H2].
      apply (thread_step_items (process c) e (globals c) g' t t');
        [exact (lookup_thread_ok started c i t HI Hi) | exact Ht | exact Hs].
    + rewrite step_stuck; [exact Hall |]. intros; congruence.
  - rewrite step_stuck; [exact Hall |]. intros; congruence.
Qed.

Lemma run_items (started : datetime) (s : Schedule) (c : Config) :
  Inv started c -> Forall items_counted (pool c) ->
  Forall items_counted (pool (run s c)).
Proof.
  revert c. induction s as [| ie s IH]; intros c HI Hall; [exact Hall |].
  cbn [run fold_left]. fold (run s (step c ie)).
  apply IH; [now apply step_inv | now apply (step_items started)].
Qed.

(** Every item that a stream of [/events] produces reports
    [total_requests >= 1] and a [last_hit_utc] that is a timestamp, never
    null: the request that opened the stream was counted and stamped
    before the first sample. *)
Theorem stream_items_counted (p : Process) (started : datetime)
    (rs : list Request) (s : Schedule) (i : nat) (t : Thread) (item : string) :
  pool (run s (boot p started rs)) !! i = Some t ->
  In (Sent item) (out t) \/ In (WriteFailed item) (out t) \/ pc t = GenYield item ->
  counted_message item.
Proof.
  intros Hi Hitem.
  assert (Hall : Forall items_counted (pool (run s (boot p started rs)))).
  { apply (run_items started); [apply boot_inv |].
    apply Forall_map, Forall_forall. intros r _. split; [constructor | exact I]. }
  rewrite Forall_lookup in Hall. destruct (Hall i t Hi) as [Hout Hpc].
  rewrite Forall_forall in Hout.
  destruct Hitem as [H | [H | H]].
  - apply list_elem_of_In in H. exact (Hout _ H).
  - apply list_elem_of_In in H. exact (Hout _ H).
  - now rewrite H in Hpc.
Qed.

Lemma stream_items_counted_witness : counted_message demo_failed_item.
Proof.
  apply (stream_items_counted demo_process 10 [demo_request Events]
           demo_stream_run 0 demo_stream_thread demo_failed_item).
  - vm_compute. reflexivity.
  - right. left. vm_compute. do 5 right. left. reflexivity.
Defined.

(** ** Requests served without interruption *)

(** A request to [/healthz], to the home page or to a path with no rule
    is counted as a hit like any other, then answered, and its thread
    never moves again. *)
Theorem plain_request_alone (p : Process) (g : Globals) (r : Request)
    (o : Output) (e1 e2 e3 e4 e5 e6 : Env) (es : list Env) :
  _LOCK g = false -> plain_response (route r) = Some o ->
  run (solo 0 ([e1; e2; e3; e4; e5; e6] ++ es)%list) (alone p g (start r))
  = alone p (_count_requests (now e4) g)
      {| request := r; pc := Done; out := [o] |}.
Proof.
  intros Hl Hr. destruct g as [st lk total last]. cbn in Hl. subst lk.
  unfold solo. rewrite map_app. fold (solo 0 es). rewrite run_app.
  cbn [map run fold_left].
  do 5 (erewrite step_alone; [| reflexivity]).
  erewrite step_alone.
  2:{ unfold thread_step. cbn [pc goto request start].
      destruct (route r); inversion Hr; subst o; reflexivity. }
  induction es as [| e es IH]; [reflexivity |].
  cbn [solo map run fold_left]. fold (solo 0 es). fold (run (solo 0 es)).
  rewrite step_alone_stuck by reflexivity. exact IH.
Qed.

Lemma plain_request_alone_witness :
  run (solo 0 (repeat (tick 20) 6 ++ [tick 21])%list)
      (alone demo_process (initial 10) (start (demo_request Healthz)))
  = alone demo_process (_count_requests 20 (initial 10))
      {| request := demo_request Healthz; pc := Done;
         out := [TextResponse 200 "ok"] |}.
Proof.
  apply (plain_request_alone demo_process (initial 10) (demo_request Healthz)
           (TextResponse 200 "ok") (tick 20) (tick 20) (tick 20) (tick 20)
           (tick 20) (tick 20) [tick 21]); reflexivity.
Defined.

(** A request to [/api/status] served without interruption answers with
    the dictionary of [api_status] evaluated in the state that
    [_count_requests] has left: the response counts the request itself. *)
Theorem status_request_alone (p : Process) (g : Globals) (r : Request)
    (e1 e2 e3 e4 e5 e6 e7 e8 e9 e10 e11 : Env) :
  _LOCK g = false -> route r = ApiStatus ->
  run (solo 0 [e1; e2; e3; e4; e5; e6; e7; e8; e9; e10; e11]) (alone p g (start r))
  = alone p (_count_requests (now e4) g)
      {| request := r; pc := Done;
         out := [JsonResponse
                   (api_status p r (now e11) (_count_requests (now e4) g))] |}
  /\ Json.get "total_requests"
       (api_status p r (now e11) (_count_requests (now e4) g))
     = Some (Json.Int (_TOTAL_REQUESTS g + 1))
  /\ Json.get "last_hit_utc"
       (api_status p r (now e11) (_count_requests (now e4) g))
     = Some (Json.Str (isoformat (now e4))).
Proof.
  intros Hl Hr. split; [now apply status_alone |]. split; reflexivity.
Qed.

Lemma status_request_alone_witness :
  Json.get "total_requests"
    (api_status demo_process (demo_request ApiStatus) 5000020
       (_count_requests 20 (initial 10)))
  = Some (Json.Int (_TOTAL_REQUESTS (initial 10) + 1)).
Proof.
  apply (status_request_alone demo_process (initial 10) (demo_request ApiStatus)
           (tick 20) (tick 20) (tick 20) (tick 20) (tick 20) (tick 20)
           (tick 20) (tick 20) (tick 20) (tick 20) (tick 5000020)); reflexivity.
Defined.

(** A request to [/events] served without interruption: the first item
    of the stream is sampled after the hook, so that it counts the
    request that opened the stream. *)
Theorem events_request_alone (p : Process) (g : Globals) (r : Request)
    (e1 e2 e3 e4 e5 e6 e7 e8 e9 e10 e11 e12 : Env) :
  _LOCK g = false -> route r = Events ->
  run (solo 0 [e1; e2; e3; e4; e5; e6; e7; e8; e9; e10; e11; e12])
      (alone p g (start r))
  = alone p (_count_requests (now e4) g)
      {| request := r;
         pc := GenYield (Generator.iteration (_count_requests (now e4) g)
                           (now e11) (now e12));
         out := [StreamOpened] |}
  /\ Generator.iteration (_count_requests (now e4) g) (now e11) (now e12)
     = sse_message
         [ ("uptime", Json.Int (_uptime_seconds (now e11) g));
           ("total_requests", Json.Int (_TOTAL_REQUESTS g + 1));
           ("last_hit_utc", Json.Str (isoformat (now e4)));
           ("ts", Json.Str (isoformat (now e12))) ]%string.
Proof.
  intros Hl Hr. split; [| reflexivity].
  destruct g as [st lk total last]. cbn in Hl. subst lk.
  cbn [solo map run fold_left].
  do 5 (erewrite step_alone; [| reflexivity]).
  erewrite step_alone;
    [| unfold thread_step; cbn [pc goto request start]; rewrite Hr; reflexivity].
  do 6 (erewrite step_alone; [| reflexivity]). reflexivity.
Qed.

Lemma events_request_alone_witness :
  Generator.iteration (_count_requests 20 (initial 10)) 5000020 5000021
  = sse_message
      [ ("uptime", Json.Int (_uptime_seconds 5000020 (initial 10)));
        ("total_requests", Json.Int (_TOTAL_REQUESTS (initial 10) + 1));
        ("last_hit_utc", Json.Str (isoformat 20));
        ("ts", Json.Str (isoformat 5000021)) ]%string.
Proof.
  apply (events_request_alone demo_process (initial 10) (demo_request Events)
           (tick 20) (tick 20) (tick 20) (tick 20) (tick 20) (tick 20)
           (tick 20) (tick 20) (tick 20) (tick 20) (tick 5000020) (tick 5000021));
    reflexivity.
Defined.




(** ** Edges of [_uptime_seconds] and of the texts *)

(** When the wall clock reads earlier than [STARTED_AT], the uptime is
    not clamped: it is never positive, it is 0 within one second before
    the start and negative from one second before; for a clock less than
    [2^34] seconds behind it is the difference truncated towards zero. *)
Theorem uptime_clock_behind (g : Globals) (t : datetime) :
  in_range (STARTED_AT g) = true -> in_range t = true -> t <= STARTED_AT g ->
  _uptime_seconds t g <= 0
  /\ (STARTED_AT g - t < US_PER_SECOND -> _uptime_seconds t g = 0)
  /\ (US_PER_SECOND <= STARTED_AT g - t -> _uptime_seconds t g <= -1)
  /\ (STARTED_AT g - t < EXACT_US ->
      _uptime_seconds t g = - ((STARTED_AT g - t) / US_PER_SECOND)).
Proof.
  intros R0 R1 H.
  pose proof (in_range_apart _ _ R1 R0) as A.
  unfold _uptime_seconds, int_total_seconds, EXACT_US, US_PER_SECOND.
  destruct (Z.leb_spec 0 (t - STARTED_AT g)) as [Hz | Hn].
  - assert (E : t - STARTED_AT g = 0) by lia. rewrite E.
    replace (STARTED_AT g - t) with 0 by lia.
    repeat split; intros; try reflexivity; lia.
  - replace (- (t - STARTED_AT g)) with (STARTED_AT g - t) by lia.
    pose proof (int_true_div_bounds (STARTED_AT g - t) ltac:(lia) A) as B.
    assert (Hq : 0 <= (STARTED_AT g - t) / 1000000) by (apply Z.div_pos; lia).
    split; [lia |]. split; [| split].
    + intros Hs. rewrite int_true_div_small by lia. reflexivity.
    + intros Hs.
      assert (1 <= (STARTED_AT g - t) / 1000000)
        by (apply Z.div_le_lower_bound; lia). lia.
    + intros Hs. now rewrite int_true_div_exact by lia.
Qed.

Lemma uptime_clock_behind_witness :
  _uptime_seconds 8500000 (initial 10000000) <= 0
  /\ _uptime_seconds 8500000 (initial 10000000) <= -1
  /\ _uptime_seconds 8500000 (initial 10000000)
     = - ((STARTED_AT (initial 10000000) - 8500000) / US_PER_SECOND).
Proof.
  destruct (uptime_clock_behind (initial 10000000) 8500000)
    as [H1 [_ [H3 H4]]]; [reflexivity | reflexivity | cbn; lia |].
  split; [exact H1 |].
  split; [apply H3 | apply H4]; unfold EXACT_US, US_PER_SECOND; cbn; lia.
Defined.

Section MoreTextLemmas.
#[local] Open Scope string_scope.
#[local] Open Scope Z_scope.
Import Shape.

(** Whatever keys and strings a dictionary holds (line breaks, quotes,
    characters outside ASCII), the item built from it is one [data:]
    line of printable ASCII closed by an empty line: no content can
    break the framing of the stream. *)
Theorem message_is_one_line (d : Json.dict) :
  printable ("data: " ++ Json.dumps d) = true
  /\ sse_message d
     = ("data: " ++ Json.dumps d) ++ String Json.newline (String Json.newline "")
  /\ is_printable Json.newline = false.
Proof.
  split; [| split; [| reflexivity]].
  - rewrite printable_app, printable_dumps. reflexivity.
  - unfold sse_message. now rewrite append_assoc.
Qed.

Lemma read_digits_add (a b : nat) (acc : Z) (s : string) :
  read_digits (a + b) acc s
  = match read_digits a acc s with
    | Some (v, rest) => read_digits b v rest
    | None => None
    end.
Proof.
  revert acc s. induction a as [| a IH]; intros acc s; [reflexivity |].
  cbn [Nat.add read_digits]. destruct s as [| c s]; [reflexivity |].
  destruct (is_digit c); [apply IH | reflexivity].
Qed.

Lemma read_digits_zero_padded (w : nat) (n : Z) (rest : string) :
  0 <= n < 10 ^ Z.of_nat w ->
  read_digits w 0 (zero_padded w n ++ rest) = Some (n, rest).
Proof.
  revert n rest. induction w as [| w IH]; intros n rest Hn.
  - cbn in *. f_equal. f_equal. lia.
  - replace (S w) with (w + 1)%nat at 1 by lia.
    rewrite read_digits_add. cbn [zero_padded]. rewrite append_assoc, IH.
    + cbn [append read_digits].
      rewrite digit_is_digit by (apply Z.mod_pos_bound; lia).
      rewrite digit_value by (apply Z.mod_pos_bound; lia).
      pose proof (Z.div_mod n 10 ltac:(lia)). do 2 f_equal. lia.
    + rewrite Nat2Z.inj_succ, Z.pow_succ_r in Hn by lia.
      split; [apply Z.div_pos; lia | apply Z.div_lt_upper_bound; lia].
Qed.

(** The text of [isoformat] can be read back: for a [datetime] within
    the range of the type, parsing the text gives its seven fields. *)
Theorem isoformat_round_trip (t : datetime) :
  in_range t = true ->
  parse_iso (isoformat t)
  = Some (year t, month t, day t, hour t, minute t, second t, microsecond t).
Proof.
  intros Hr. destruct (fields_in_bounds t Hr) as [Hy [Hm [Hd [Hh [Hmi [Hs Hus]]]]]].
  assert (P4 : 10 ^ Z.of_nat 4 = 10000) by reflexivity.
  assert (P2 : 10 ^ Z.of_nat 2 = 100) by reflexivity.
  assert (P6 : 10 ^ Z.of_nat 6 = 1000000) by reflexivity.
  unfold parse_iso, isoformat.
  rewrite read_digits_zero_padded by (rewrite ?P4, ?P2, ?P6; lia). cbn [append expect Ascii.eqb Bool.eqb].
  rewrite read_digits_zero_padded by (rewrite ?P4, ?P2, ?P6; lia). cbn [append expect Ascii.eqb Bool.eqb].
  rewrite read_digits_zero_padded by (rewrite ?P4, ?P2, ?P6; lia). cbn [append expect Ascii.eqb Bool.eqb].
  rewrite read_digits_zero_padded by (rewrite ?P4, ?P2, ?P6; lia). cbn [append expect Ascii.eqb Bool.eqb].
  rewrite read_digits_zero_padded by (rewrite ?P4, ?P2, ?P6; lia). cbn [append expect Ascii.eqb Bool.eqb].
  rewrite read_digits_zero_padded by (rewrite ?P4, ?P2, ?P6; lia).
  unfold parse_fraction. destruct (microsecond t =? 0) eqn:E.
  - apply Z.eqb_eq in E. rewrite E. reflexivity.
  - cbn [append String.eqb Ascii.eqb Bool.eqb expect].
    rewrite read_digits_zero_padded by (rewrite ?P4, ?P2, ?P6; lia). reflexivity.
Qed.

Lemma isoformat_round_trip_witness :
  parse_iso (isoformat 1700000000123456)
  = Some (2023, 11, 14, 22, 13, 20, 123456).
Proof.
  apply (isoformat_round_trip 1700000000123456). reflexivity.
Defined.

End MoreTextLemmas.
